(** * Query cost calculator: the walker of [app.py] and its cost report

    A shallow embedding of [extract_fields_and_limit] and [calculate_cost]
    (src/app.py, lines 5-40) together with the properties of the cost
    report that the specification states about them.

    The GraphQL parser ([graphql.parse]) is an external library: it is a
    variable of the development.  Its result type, the syntax tree, is
    modelled with the attributes the walker reads.  Python's [int] builtin
    on strings is a variable of the development as well, Python's integers
    are [Z], and the list the walker mutates is threaded as state.  The
    recursion limit of the interpreter is not modelled. *)

From Stdlib Require Import ZArith String Ascii Bool Lia List.
From Stdlib Require Import DecimalString.
Import ListNotations.

#[local] Set Warnings "-register-all".

Open Scope string_scope.
Open Scope list_scope.
Open Scope Z_scope.

(** ** Python: exceptions *)

Module Py.

(** The exception classes that matter here, with the message [str] gives
    for them.  [GraphQLSyntaxError] is raised by the parser, [ValueError] by
    [int] on a string that is no integer literal (and by [str] and
    [pandas.DataFrame]), [AttributeError] by an attribute access on an
    object that has no such attribute.  [CostComputationError] is the class
    the specification names for ill-typed limits; no statement of [app.py]
    raises it. *)
Inductive Exception : Type :=
| GraphQLSyntaxError (message : string)
| ValueError (message : string)
| AttributeError (message : string)
| CostComputationError (path : string).

Definition is_ValueError (e : Exception) : Prop :=
  exists message, e = ValueError message.

Definition is_AttributeError (e : Exception) : Prop :=
  exists message, e = AttributeError message.

(** A computation that returns or raises. *)
Definition Result (A : Type) : Type := (Exception + A)%type.
Definition Ok {A} (a : A) : Result A := inr a.
Definition Raise {A} (e : Exception) : Result A := inl e.

(** The message of the [AttributeError] for an object of the class [class]
    read at the attribute [attribute]. *)
Definition no_attribute (class attribute : string) : Exception :=
  AttributeError ("'" ++ class ++ "' object has no attribute '"
                  ++ attribute ++ "'").

(** CPython's default bound on the number of digits [int] and [str]
    convert ([sys.int_info.default_max_str_digits]). *)
Definition int_max_str_digits : nat := 4300.

(** [int(b)] for a bool. *)
Definition int_bool (b : bool) : Z := if b then 1 else 0.

End Py.
Import Py.

(** ** The syntax tree returned by [graphql.parse] *)

Module Ast.

(** Value literals.  The attribute [value] is a string for int, float,
    string and enum literals and a bool for boolean literals; null, list
    and object literals and variables have no attribute [value] (their
    contents are never inspected by the walker). *)
Inductive ValueNode : Type :=
| IntValueNode (value : string)
| FloatValueNode (value : string)
| StringValueNode (value : string)
| BooleanValueNode (value : bool)
| EnumValueNode (value : string)
| NullValueNode
| ListValueNode
| ObjectValueNode
| VariableNode (name : string).

Record ArgumentNode : Type :=
  { arg_name : string; arg_value : ValueNode }.

(** Selections.  A field has an optional selection set, a fragment spread
    has no attribute [selection_set], an inline fragment has one and has
    no attribute [name]. *)
Inductive SelectionNode : Type :=
| FieldNode (name : string) (arguments : list ArgumentNode)
            (selection_set : option (list SelectionNode))
| FragmentSpreadNode (name : string)
| InlineFragmentNode (selection_set : list SelectionNode).

(** Definitions of a document: operations and fragments carry a selection
    set, type system definitions have no such attribute. *)
Inductive DefinitionNode : Type :=
| OperationDefinitionNode (selection_set : list SelectionNode)
| FragmentDefinitionNode (name : string) (selection_set : list SelectionNode)
| TypeSystemDefinitionNode.

Record DocumentNode : Type := { definitions : list DefinitionNode }.

(** What [visit_node] is applied to: a definition (line 26) or a
    selection (line 20). *)
Inductive Node : Type :=
| DefinitionN (definition : DefinitionNode)
| SelectionN (selection : SelectionNode).

(** [hasattr(node, "selection_set") and node.selection_set], with the
    selections when the test holds.  A selection set object is truthy
    whatever it contains. *)
Definition selection_set_of (s : SelectionNode) : option (list SelectionNode) :=
  match s with
  | FieldNode _ _ selection_set => selection_set
  | FragmentSpreadNode _ => None
  | InlineFragmentNode selection_set => Some selection_set
  end.

Definition definition_selection_set (d : DefinitionNode)
  : option (list SelectionNode) :=
  match d with
  | OperationDefinitionNode selection_set => Some selection_set
  | FragmentDefinitionNode _ selection_set => Some selection_set
  | TypeSystemDefinitionNode => None
  end.

Definition node_selection_set (node : Node) : option (list SelectionNode) :=
  match node with
  | DefinitionN d => definition_selection_set d
  | SelectionN s => selection_set_of s
  end.

Definition has_selection_set (s : SelectionNode) : bool :=
  match selection_set_of s with Some _ => true | None => false end.

(** [selection.name.value] *)
Definition name_value (s : SelectionNode) : Result string :=
  match s with
  | FieldNode name _ _ => Ok name
  | FragmentSpreadNode name => Ok name
  | InlineFragmentNode _ => Raise (no_attribute "InlineFragmentNode" "name")
  end.

End Ast.
Import Ast.

(** Induction on selections, with the hypothesis for every selection of a
    nested selection set. *)
Section SelectionNode_induction.

Variable P : SelectionNode -> Prop.
Hypothesis P_leaf_field : forall name arguments,
    P (FieldNode name arguments None).
Hypothesis P_field : forall name arguments selections,
    Forall P selections -> P (FieldNode name arguments (Some selections)).
Hypothesis P_spread : forall name, P (FragmentSpreadNode name).
Hypothesis P_inline : forall selections,
    Forall P selections -> P (InlineFragmentNode selections).

Fixpoint SelectionNode_nested_ind (s : SelectionNode) : P s :=
  let all :=
    fix all (l : list SelectionNode) : Forall P l :=
      match l with
      | [] => Forall_nil P
      | x :: r => Forall_cons x (SelectionNode_nested_ind x) (all r)
      end in
  match s with
  | FieldNode name arguments None => P_leaf_field name arguments
  | FieldNode name arguments (Some selections) =>
      P_field name arguments selections (all selections)
  | FragmentSpreadNode name => P_spread name
  | InlineFragmentNode selections => P_inline selections (all selections)
  end.

End SelectionNode_induction.

(** ** The libraries of the page: [str], [pandas] and streamlit *)

(** [str(z)] for an integer, which an f-string uses as well: the decimal
    digits, with the bound on their number. *)
Definition str_int (z : Z) : Result string :=
  let s := NilZero.string_of_int (Z.to_int z) in
  let digits := if z <? 0 then pred (String.length s) else String.length s in
  if (digits <=? int_max_str_digits)%nat then Ok s
  else Raise (ValueError
                ("Exceeds the limit (4300 digits) for integer string "
                 ++ "conversion; use sys.set_int_max_str_digits() to "
                 ++ "increase the limit")).

(** A data frame: the columns with their headers, in the order of the
    keys of the dict it is built from. *)
Definition DataFrame : Type := list (string * list string).

(** [pd.DataFrame(columns)] for a dict of lists: the columns must have the
    same length. *)
Definition DataFrame_of (columns : list (string * list string))
  : Result DataFrame :=
  match columns with
  | [] => Ok []
  | (_, first) :: rest =>
      if forallb (fun column => (length (snd column) =? length first)%nat) rest
      then Ok columns
      else Raise (ValueError "All arrays must be of the same length")
  end.

Module St.

(** The calls to streamlit that [main] makes. *)
Inductive Call : Type :=
| title (body : string)
| text_area (label value : string) (height : Z)
| button (label : string)
| write (body : string)
| divider
| metric (label value : string)
| caption (body : string)
| markdown (body : string)
| code (body language : string)
| table (data : DataFrame)
| latex (body : string)
| error (body : string).

End St.

(** ** Python's [int] on strings

    [int(s)] for a string [s] is the builtin of the interpreter: it is a
    variable of the development, and gives the integer, or the message of
    the [ValueError] it raises. *)

Section Int.

Variable py_int : string -> string + Z.

(** [int(s)] *)
Definition int_str (s : string) : Result Z :=
  match py_int s with
  | inl message => Raise (ValueError message)
  | inr z => Ok z
  end.

(** [int(argument.value.value)]: null, list and object literals and
    variables have no attribute [value]. *)
Definition int_of_value (v : ValueNode) : Result Z :=
  match v with
  | IntValueNode s | FloatValueNode s | StringValueNode s | EnumValueNode s =>
      int_str s
  | BooleanValueNode b => Ok (int_bool b)
  | NullValueNode => Raise (no_attribute "NullValueNode" "value")
  | ListValueNode => Raise (no_attribute "ListValueNode" "value")
  | ObjectValueNode => Raise (no_attribute "ObjectValueNode" "value")
  | VariableNode _ => Raise (no_attribute "VariableNode" "value")
  end.

(** ** The walker *)

(** An element of [all_fields]: the dot-joined path and the limit. *)
Definition Entry : Type := (string * Z)%type.

(** Computations over the list object [all_fields]: they return or raise,
    and leave the list as they have mutated it so far. *)
Definition Walk (A : Type) : Type := list Entry -> Result A * list Entry.

Definition ret {A} (a : A) : Walk A := fun all_fields => (Ok a, all_fields).

Definition bind {A B} (m : Walk A) (k : A -> Walk B) : Walk B :=
  fun all_fields =>
    match m all_fields with
    | (inl e, all_fields') => (Raise e, all_fields')
    | (inr a, all_fields') => k a all_fields'
    end.

Definition lift {A} (r : Result A) : Walk A := fun all_fields => (r, all_fields).

(** [all_fields.append(entry)] *)
Definition append (entry : Entry) : Walk unit :=
  fun all_fields => (Ok tt, all_fields ++ [entry]).

Notation "x <- m ;; k" := (bind m (fun x => k))
  (at level 61, m at next level, right associativity).
Notation "m ;; k" := (bind m (fun _ => k))
  (at level 61, right associativity).

(** Lines 13-15: the loop over the arguments of a field.  Every argument
    named [limit] overwrites [child_limit]. *)
Fixpoint for_arguments (current_limit child_limit : Z)
  (arguments : list ArgumentNode) : Result Z :=
  match arguments with
  | [] => Ok child_limit
  | argument :: rest =>
      if String.eqb (arg_name argument) "limit"
      then match int_of_value (arg_value argument) with
           | inl e => Raise e
           | inr v => for_arguments current_limit (v * current_limit) rest
           end
      else for_arguments current_limit child_limit rest
  end.

Section Selections.

(** The recursive occurrence of [visit_node] at line 20. *)
Variable visit : SelectionNode -> list string -> Z -> Walk unit.
Variable path : list string.
Variable child_limit : Z.

(** Lines 17-22: the loop over the selections of a node. *)
Fixpoint for_selections (selections : list SelectionNode) : Walk unit :=
  match selections with
  | [] => ret tt
  | selection :: rest =>
      name <- lift (name_value selection) ;;
      let new_path := path ++ [name] in
      (if has_selection_set selection
       then visit selection new_path child_limit
       else append (String.concat "." new_path, child_limit)) ;;
      for_selections rest
  end.

End Selections.

(** [visit_node] at a selection. *)
Fixpoint visit_selection (node : SelectionNode) (path : list string)
  (current_limit : Z) {struct node} : Walk unit :=
  match node with
  | FieldNode _ arguments selection_set =>
      child_limit <- lift (for_arguments current_limit current_limit arguments) ;;
      match selection_set with
      | Some selections =>
          for_selections visit_selection path child_limit selections
      | None => ret tt
      end
  | FragmentSpreadNode _ => ret tt
  | InlineFragmentNode selections =>
      for_selections visit_selection path current_limit selections
  end.

(** [visit_node(node, path, current_limit)], lines 9-22.  Only a
    [FieldNode] passes the [isinstance] test of line 12. *)
Definition visit_node (node : Node) (path : list string) (current_limit : Z)
  : Walk unit :=
  match node with
  | SelectionN selection => visit_selection selection path current_limit
  | DefinitionN definition =>
      match definition_selection_set definition with
      | Some selections =>
          for_selections visit_selection path current_limit selections
      | None => ret tt
      end
  end.

(** Lines 24-26: the loop over the definitions; [visit_node(definition)]
    takes the defaults [path = []] and [current_limit = 1].  The default
    list of [path] is never mutated: line 18 builds a new list from it. *)
Fixpoint for_definitions (defs : list DefinitionNode) : Walk unit :=
  match defs with
  | [] => ret tt
  | definition :: rest =>
      (match definition_selection_set definition with
       | Some _ => visit_node (DefinitionN definition) [] 1
       | None => ret tt
       end) ;;
      for_definitions rest
  end.

(** ** The two functions, over a store of list objects

    [all_fields] is a list object allocated by each call of
    [extract_fields_and_limit]; the walker mutates it in place and the
    function returns it, so the third component of the result of
    [calculate_cost] is that same object.  A store holds the list objects
    allocated so far; a location is an index in it. *)

Definition Loc : Type := nat.
Definition Store : Type := list (list Entry).

Definition deref (h : Store) (l : Loc) : list Entry := nth l h [].

Definition CostReport : Type := (Z * list string * list Entry)%type.

Section App.

(** [graphql.parse]: a document, or an exception. *)
Variable parse : string -> Result DocumentNode.

(** Lines 5-28.  The parser runs first (line 6); then [all_fields] is
    allocated empty (line 7), the definitions are walked, and the list is
    returned.  An exception of the walker leaves the list in the store,
    out of reach. *)
Definition extract_fields_and_limit (query : string) (h : Store)
  : Result Loc * Store :=
  match parse query with
  | inl e => (Raise e, h)
  | inr document =>
      let all_fields : Loc := length h in
      match for_definitions (definitions document) [] with
      | (inl e, fields) => (Raise e, h ++ [fields])
      | (inr _, fields) => (Ok all_fields, h ++ [fields])
      end
  end.

(** Lines 30-40.  The third component is the list [extract_fields_and_limit]
    returned, not a copy. *)
Definition calculate_cost (query : string) (h : Store)
  : Result (Z * list string * Loc) * Store :=
  match extract_fields_and_limit query h with
  | (inl e, h') => (Raise e, h')
  | (inr fields_with_limits, h') =>
      let total_data_points :=
        fold_left (fun total (entry : Entry) => total + snd entry)
                  (deref h' fields_with_limits) 0 in
      let total_cost :=
        total_data_points + Z.of_nat (length (deref h' fields_with_limits)) in
      (Ok (total_cost, map fst (deref h' fields_with_limits), fields_with_limits),
       h')
  end.

(** What the caller of [calculate_cost] sees: the exception, or the three
    components with the list object read from the store. *)
Definition observe (r : Result (Z * list string * Loc) * Store)
  : Result CostReport :=
  match r with
  | (inl e, _) => Raise e
  | (inr (total_cost, fields, l), h') => Ok (total_cost, fields, deref h' l)
  end.

Definition cost_report (query : string) (h : Store) : Result CostReport :=
  observe (calculate_cost query h).

End App.

(** ** The reading of a query the specification describes

    The definitions of this part follow the words of the specification; the
    theorems compare the walker with them. *)

Definition is_limit (argument : ArgumentNode) : bool :=
  String.eqb (arg_name argument) "limit".

(** The literals of the arguments named [limit], in the order written. *)
Definition limit_values (arguments : list ArgumentNode) : list ValueNode :=
  map arg_value (filter is_limit arguments).

(** The limit a list of arguments carries: the integer of its [limit]
    argument (of the last one when the name is repeated), 1 without one. *)
Definition own_limit (arguments : list ArgumentNode) : Z :=
  match rev (limit_values arguments) with
  | [] => 1
  | v :: _ => match int_of_value v with inr z => z | inl _ => 1 end
  end.

(** The limit a selection carries; only fields have arguments. *)
Definition node_limit (s : SelectionNode) : Z :=
  match s with
  | FieldNode _ arguments _ => own_limit arguments
  | _ => 1
  end.

Definition node_name (s : SelectionNode) : string :=
  match s with
  | FieldNode name _ _ => name
  | FragmentSpreadNode name => name
  | InlineFragmentNode _ => ""
  end.

Definition children (s : SelectionNode) : list SelectionNode :=
  match selection_set_of s with
  | Some selections => selections
  | None => []
  end.

(** A leaf occurrence: the strict ancestors of the leaf among the
    selections, outermost first, and the leaf. *)
Definition Occurrence : Type := (list SelectionNode * SelectionNode)%type.

(** The leaf occurrences below (and including) a selection, left to right,
    depth first. *)
Fixpoint occurrences (s : SelectionNode) : list Occurrence :=
  match s with
  | FieldNode _ _ (Some selections) | InlineFragmentNode selections =>
      map (fun o : Occurrence => (s :: fst o, snd o))
          (flat_map occurrences selections)
  | FieldNode _ _ None | FragmentSpreadNode _ => [([], s)]
  end.

Definition definition_occurrences (d : DefinitionNode) : list Occurrence :=
  match definition_selection_set d with
  | Some selections => flat_map occurrences selections
  | None => []
  end.

Definition document_occurrences (document : DocumentNode) : list Occurrence :=
  flat_map definition_occurrences (definitions document).

Definition product (l : list Z) : Z := fold_right Z.mul 1 l.
Definition sum (l : list Z) : Z := fold_right Z.add 0 l.

(** The path of a leaf occurrence, and the product of the limits of its
    strict ancestors. *)
Definition occurrence_path (o : Occurrence) : string :=
  String.concat "." (map node_name (fst o ++ [snd o])).

Definition ancestors_product (o : Occurrence) : Z :=
  product (map node_limit (fst o)).

Definition occurrence_entry (o : Occurrence) : Entry :=
  (occurrence_path o, ancestors_product o).

(** A property of every selection of a tree. *)
Fixpoint all_nodes (p : SelectionNode -> bool) (s : SelectionNode) : bool :=
  p s &&
  match s with
  | FieldNode _ _ (Some selections) | InlineFragmentNode selections =>
      forallb (all_nodes p) selections
  | FieldNode _ _ None | FragmentSpreadNode _ => true
  end.

Definition all_nodes_of_document (p : SelectionNode -> bool)
  (document : DocumentNode) : bool :=
  forallb (fun d => match definition_selection_set d with
                    | Some selections => forallb (all_nodes p) selections
                    | None => true
                    end) (definitions document).

(** Every argument named [limit] of the selection has a literal that
    passes [literal_ok]. *)
Definition limits_pass (literal_ok : ValueNode -> bool) (s : SelectionNode)
  : bool :=
  match s with
  | FieldNode _ arguments _ => forallb literal_ok (limit_values arguments)
  | _ => true
  end.

(** The selection carries no argument named [limit]. *)
Definition without_limit (s : SelectionNode) : bool :=
  limits_pass (fun _ => false) s.

(** The input convention: a limit is an integer literal that is not
    negative. *)
Definition nonnegative_int_literal (v : ValueNode) : bool :=
  match v with
  | IntValueNode s => match int_str s with inr z => 0 <=? z | inl _ => false end
  | _ => false
  end.

Definition positive_int_literal (v : ValueNode) : bool :=
  match v with
  | IntValueNode s => match int_str s with inr z => 0 <? z | inl _ => false end
  | _ => false
  end.

(** A field with a selection set one of whose [limit] literals [int]
    rejects. *)
Definition rejected_limit (s : SelectionNode) : bool :=
  match s with
  | FieldNode _ arguments (Some _) =>
      existsb (fun v => match int_of_value v with inl _ => true | inr _ => false end)
              (limit_values arguments)
  | _ => false
  end.

Definition some_node_of_document (p : SelectionNode -> bool)
  (document : DocumentNode) : bool :=
  negb (all_nodes_of_document (fun s => negb (p s)) document).

(** ** Example queries

    The documents [graphql.parse] returns on the example queries of the
    specification and on a few more. *)

Definition leaf (name : string) : SelectionNode := FieldNode name [] None.

Definition limit (v : ValueNode) : ArgumentNode :=
  {| arg_name := "limit"; arg_value := v |}.

Definition query_of (selections : list SelectionNode) : DocumentNode :=
  {| definitions := [OperationDefinitionNode selections] |}.

(** The double quote character, for queries with a string literal. *)
Definition dq : string := String (ascii_of_nat 34) EmptyString.

Definition text_P1 : string := "{ a b c }".
Definition document_P1 : DocumentNode := query_of [leaf "a"; leaf "b"; leaf "c"].

Definition text_P2 : string := "{ items(limit: 5) { id name } }".
Definition document_P2 : DocumentNode :=
  query_of [FieldNode "items" [limit (IntValueNode "5")]
              (Some [leaf "id"; leaf "name"])].

Definition text_P3 : string := "{ a(limit:10) { b(limit:3) { c } } }".
Definition document_P3 : DocumentNode :=
  query_of [FieldNode "a" [limit (IntValueNode "10")]
              (Some [FieldNode "b" [limit (IntValueNode "3")]
                       (Some [leaf "c"])])].

Definition text_P4 : string := "{ a(limit: 2) }".
Definition document_P4 : DocumentNode :=
  query_of [FieldNode "a" [limit (IntValueNode "2")] None].

Definition text_P5 : string := "{".
Definition error_P5 : Exception :=
  GraphQLSyntaxError "Syntax Error: Expected Name, found <EOF>.".

Definition text_string_limit : string :=
  "{ a(limit: " ++ dq ++ "abc" ++ dq ++ ") { b } }".
Definition document_string_limit : DocumentNode :=
  query_of [FieldNode "a" [limit (StringValueNode "abc")] (Some [leaf "b"])].

Definition text_string_limit_leaf : string :=
  "{ a(limit: " ++ dq ++ "abc" ++ dq ++ ") }".
Definition document_string_limit_leaf : DocumentNode :=
  query_of [FieldNode "a" [limit (StringValueNode "abc")] None].

Definition text_numeric_string_limit : string :=
  "{ a(limit: " ++ dq ++ "5" ++ dq ++ ") { b } }".
Definition document_numeric_string_limit : DocumentNode :=
  query_of [FieldNode "a" [limit (StringValueNode "5")] (Some [leaf "b"])].

Definition text_negative_limit : string := "{ a(limit: -3) { b } }".
Definition document_negative_limit : DocumentNode :=
  query_of [FieldNode "a" [limit (IntValueNode "-3")] (Some [leaf "b"])].

Definition text_zero_limit : string := "{ a(limit: 0) { b } }".
Definition document_zero_limit : DocumentNode :=
  query_of [FieldNode "a" [limit (IntValueNode "0")] (Some [leaf "b"])].

Definition text_two_operations : string :=
  "query A { a(limit: 2) { x y } } query B { b(limit: 7) { z } c }".
Definition document_two_operations : DocumentNode :=
  {| definitions :=
      [OperationDefinitionNode
         [FieldNode "a" [limit (IntValueNode "2")] (Some [leaf "x"; leaf "y"])];
       OperationDefinitionNode
         [FieldNode "b" [limit (IntValueNode "7")] (Some [leaf "z"]); leaf "c"]] |}.

Definition text_repeated : string := "{ a a b { a c } c { a } a }".
Definition document_repeated : DocumentNode :=
  query_of [leaf "a"; leaf "a";
            FieldNode "b" [] (Some [leaf "a"; leaf "c"]);
            FieldNode "c" [] (Some [leaf "a"]);
            leaf "a"].

Definition example_queries : list (string * Result DocumentNode) :=
  [ (text_P1, Ok document_P1);
    (text_P2, Ok document_P2);
    (text_P3, Ok document_P3);
    (text_P4, Ok document_P4);
    (text_P5, Raise error_P5);
    (text_string_limit, Ok document_string_limit);
    (text_string_limit_leaf, Ok document_string_limit_leaf);
    (text_numeric_string_limit, Ok document_numeric_string_limit);
    (text_negative_limit, Ok document_negative_limit);
    (text_zero_limit, Ok document_zero_limit);
    (text_two_operations, Ok document_two_operations);
    (text_repeated, Ok document_repeated) ].

(** [graphql.parse] on the example queries.  The parser is defined on
    these strings only; any other string is answered as not handled. *)
Definition parse_examples (query : string) : Result DocumentNode :=
  match find (fun example => String.eqb (fst example) query) example_queries with
  | Some example => snd example
  | None => Raise (GraphQLSyntaxError "not an example query")
  end.

(** [int] on the literals of the example queries.  It is defined on these
    strings only; any other string is answered as no integer. *)
Definition example_literals : list (string * (string + Z)) :=
  [ ("0", inr 0); ("2", inr 2); ("3", inr 3); ("5", inr 5); ("7", inr 7);
    ("9", inr 9); ("10", inr 10); ("-3", inr (-3));
    ("abc", inl "invalid literal for int() with base 10: 'abc'") ].


(** The [ValueError] of [int] at the string literal [abc]. *)
Definition abc_error : Exception :=
  ValueError "invalid literal for int() with base 10: 'abc'".

Definition int_examples (s : string) : string + Z :=
  match find (fun example => String.eqb (fst example) s) example_literals with
  | Some example => snd example
  | None => inl "not a literal of the examples"
  end.

(** ** Statements the lemmas are about *)

(** A computation appends when it extends [all_fields] at its end, by
    entries that do not depend on what the list holds. *)
Definition appends {A} (m : Walk A) : Prop :=
  forall all_fields, m all_fields = (fst (m []), all_fields ++ snd (m [])).

(** The entry of a leaf occurrence found below a node visited with [path]
    and whose selections are walked with [child_limit]. *)
Definition entry_below (path : list string) (child_limit : Z) (o : Occurrence)
  : Entry :=
  (String.concat "." (path ++ map node_name (fst o ++ [snd o])),
   ancestors_product o * child_limit).

Definition returns_entries (s : SelectionNode) : Prop :=
  forall path current_limit acc u acc',
    visit_selection s path current_limit acc = (inr u, acc') ->
    acc' = acc ++ map (entry_below path (node_limit s * current_limit))
                      (flat_map occurrences (children s)).

Definition raises_untyped (s : SelectionNode) : Prop :=
  forall path current_limit acc e acc',
    visit_selection s path current_limit acc = (inl e, acc') ->
    is_ValueError e \/ is_AttributeError e.

Definition accepted (s : SelectionNode) : bool := negb (rejected_limit s).

Definition returns_accepted (s : SelectionNode) : Prop :=
  forall path current_limit acc u acc',
    visit_selection s path current_limit acc = (inr u, acc') ->
    all_nodes accepted s = true.

(** A selection with a name: not an inline fragment. *)
Definition named (s : SelectionNode) : bool :=
  match s with
  | InlineFragmentNode _ => false
  | _ => true
  end.

Definition returns_when_readable (s : SelectionNode) : Prop :=
  has_selection_set s = true ->
  all_nodes named s = true ->
  all_nodes accepted s = true ->
  forall path current_limit acc,
  exists acc', visit_selection s path current_limit acc = (inr tt, acc').

Definition products_ok (literal_ok : ValueNode -> bool) (ok : Z -> Prop)
  (s : SelectionNode) : Prop :=
  all_nodes (limits_pass literal_ok) s = true ->
  Forall (fun o => ok (ancestors_product o)) (occurrences s).

(** The report of a call, as a function of what the parser answers. *)
Definition report_of (r : Result DocumentNode) : Result CostReport :=
  match r with
  | inl e => Raise e
  | inr document =>
      match for_definitions (definitions document) [] with
      | (inl e, _) => Raise e
      | (inr _, fields) =>
          Ok (fold_left (fun total (entry : Entry) => total + snd entry)
                        fields 0
              + Z.of_nat (length fields),
              map fst fields, fields)
      end
  end.

(** ** What the walker reads of a query *)

(** The part of a selection the walker reads: names, nesting, and the
    arguments named [limit] of the fields that have a selection set.  The
    arguments of a leaf are dropped, and a fragment spread is written as a
    leaf field of the same name. *)
Fixpoint skeleton (s : SelectionNode) : SelectionNode :=
  match s with
  | FieldNode name arguments (Some selections) =>
      FieldNode name (filter is_limit arguments) (Some (map skeleton selections))
  | FieldNode name _ None => FieldNode name [] None
  | FragmentSpreadNode name => FieldNode name [] None
  | InlineFragmentNode selections => InlineFragmentNode (map skeleton selections)
  end.

Definition skeleton_definition (d : DefinitionNode) : DefinitionNode :=
  match d with
  | OperationDefinitionNode selections =>
      OperationDefinitionNode (map skeleton selections)
  | FragmentDefinitionNode name selections =>
      FragmentDefinitionNode name (map skeleton selections)
  | TypeSystemDefinitionNode => TypeSystemDefinitionNode
  end.

Definition skeleton_document (document : DocumentNode) : DocumentNode :=
  {| definitions := map skeleton_definition (definitions document) |}.

Definition same_walk_as_skeleton (s : SelectionNode) : Prop :=
  has_selection_set s = true ->
  forall path current_limit acc,
    visit_selection (skeleton s) path current_limit acc
    = visit_selection s path current_limit acc.

Definition returns_named_children (s : SelectionNode) : Prop :=
  forall path current_limit acc u acc',
    visit_selection s path current_limit acc = (inr u, acc') ->
    forallb (all_nodes named) (children s) = true.

(** A path below the field [name]. *)
Definition below_field (name : string) (path : string) : string :=
  name ++ "." ++ path.

(** More example queries: a field with other arguments, a limit on a leaf
    and a fragment spread, and its skeleton; an inline fragment; a document
    of type definitions; the selections of [text_P2] alone; the selections
    of [text_P1] followed by the selection of [text_P2]. *)
Definition text_other_arguments : string :=
  "{ items(where: {active: true}, limit: 5) { id(limit: 9) ...F } }".
Definition document_other_arguments : DocumentNode :=
  query_of [FieldNode "items"
              [{| arg_name := "where"; arg_value := ObjectValueNode |};
               limit (IntValueNode "5")]
              (Some [FieldNode "id" [limit (IntValueNode "9")] None;
                     FragmentSpreadNode "F"])].

Definition text_skeleton : string := "{ items(limit: 5) { id F } }".
Definition document_skeleton : DocumentNode :=
  query_of [FieldNode "items" [limit (IntValueNode "5")]
              (Some [leaf "id"; leaf "F"])].

Definition text_inline_fragment : string := "{ a { ... on T { b } } }".
Definition document_inline_fragment : DocumentNode :=
  query_of [FieldNode "a" [] (Some [InlineFragmentNode [leaf "b"]])].

Definition text_type_definitions : string := "type T { a: Int } scalar S".
Definition document_type_definitions : DocumentNode :=
  {| definitions := [TypeSystemDefinitionNode; TypeSystemDefinitionNode] |}.

Definition text_inner : string := "{ id name }".
Definition document_inner : DocumentNode := query_of [leaf "id"; leaf "name"].

Definition text_joined : string := "{ a b c items(limit: 5) { id name } }".
Definition document_joined : DocumentNode :=
  query_of [leaf "a"; leaf "b"; leaf "c";
            FieldNode "items" [limit (IntValueNode "5")]
              (Some [leaf "id"; leaf "name"])].

Definition more_example_queries : list (string * Result DocumentNode) :=
  [ (text_other_arguments, Ok document_other_arguments);
    (text_skeleton, Ok document_skeleton);
    (text_inline_fragment, Ok document_inline_fragment);
    (text_type_definitions, Ok document_type_definitions);
    (text_inner, Ok document_inner);
    (text_joined, Ok document_joined) ].

(** [graphql.parse] on all the example queries. *)
Definition parse_more_examples (query : string) : Result DocumentNode :=
  match find (fun example => String.eqb (fst example) query)
             more_example_queries with
  | Some example => snd example
  | None => parse_examples query
  end.

(** ** The page: [main]

    [main] (lines 42-112) talks to two libraries.  The calls to streamlit
    are recorded in the order they are made; what the user did is an
    argument: the text in the text area and whether the button was
    clicked.  [pandas.DataFrame] builds the table from the three columns. *)


(** The line feed character. *)
Definition nl : string := String (ascii_of_nat 10) EmptyString.

Definition default_query : string :=
  "{" ++ nl ++
  "  assets(where: {isActive: true}, limit: 10) {" ++ nl ++
  "    id" ++ nl ++
  "    slug" ++ nl ++
  "    logoUrl" ++ nl ++
  "    metrics(where: {metricKeys: [" ++ dq ++ "reward_rate" ++ dq ++
  "], createdAt_lt: " ++ dq ++ "2023-06-28" ++ dq ++
  "}, limit: 10, order: {createdAt: desc}) {" ++ nl ++
  "      defaultValue" ++ nl ++
  "      createdAt" ++ nl ++
  "    }" ++ nl ++
  "  }" ++ nl ++
  "}" ++ nl ++
  "    ".

Definition caption_maximum : string :=
  "When calculating your credit needs, you should be aware that " ++
  "the calculations shown on this page are the maximum credits " ++
  "used per query. Credits are calculated based on how much data " ++
  "is returned rather than the theoretical number of datapoints " ++
  "requested. If the limit is set to 100, but only 10 entries " ++
  "are returned, you will only be charged for 10 entries.".

Definition caption_field : string :=
  "**Field**: Represents the specific data point or attribute " ++
  "requested in the query.".

Definition caption_calculation : string :=
  "**Calculation**: Indicates how many times a particular field " ++
  "will be returned based on the query. The `1 x [limit]` format " ++
  "shows that for each entry in the response, this field will " ++
  "be returned once. The `[limit]` specifies the max number of " ++
  "entries this field will be returned for.".

Definition caption_result : string :=
  "**Result**: Total credits consumed by querying this field " ++
  "for the specified limit.".

Definition latex_total_fields : string :=
  "\text{Total Fields in Query} = ".

Definition latex_sum_of_credits : string :=
  "\text{Sum of Credits} = \sum \text{credits from each field} " ++
  "= ".

Definition latex_total_credits : string :=
  "\text{Total Credits Consumed} = \text{Sum of Credits} + \text{Total " ++
  "Fields in Query}".

Definition caption_formula : string :=
  "The formula above shows how the total credits consumed is " ++
  "calculated. The sum of credits is the total number of credits " ++
  "consumed by all fields in the query. The total fields in query " ++
  "is the number of unique fields in the query. The total credits " ++
  "consumed is the sum of credits plus the total fields in query.".

Definition syntax_error_message : string :=
  "There seems to be a syntax error in your GraphQL query. Please " ++
  "check and try again.".

Definition footer : string :=
  "little helper created by [**@0xfabs**](https://twitter.com/0xfabs) " ++
  "| [**Staking Rewards API**](https://stakingrewards.typeform.com/apply-api)".

(** Computations of the [try] block: they return or raise, and extend the
    page by the calls made so far. *)
Definition Ui (A : Type) : Type := list St.Call -> Result A * list St.Call.

Definition ui_ret {A} (a : A) : Ui A := fun page => (Ok a, page).

Definition ui_bind {A B} (m : Ui A) (k : A -> Ui B) : Ui B :=
  fun page =>
    match m page with
    | (inl e, page') => (Raise e, page')
    | (inr a, page') => k a page'
    end.

Definition ui_lift {A} (r : Result A) : Ui A := fun page => (r, page).

(** A call to streamlit. *)
Definition st (call : St.Call) : Ui unit :=
  fun page => (Ok tt, page ++ [call]).

Declare Scope ui_scope.
Delimit Scope ui_scope with ui.
Notation "x <- m ;; k" := (ui_bind m (fun x => k))
  (at level 61, m at next level, right associativity) : ui_scope.
Notation "m ;; k" := (ui_bind m (fun _ => k))
  (at level 61, right associativity) : ui_scope.

(** Lines 69-70: one bullet for each field. *)
Fixpoint for_fields (fields : list string) : Ui unit :=
  match fields with
  | [] => ui_ret tt
  | field :: rest =>
      (st (St.markdown ("- `" ++ field ++ "`")) ;; for_fields rest)%ui
  end.

(** The three columns of [calculations]. *)
Definition Calculations : Type :=
  (list string * list string * list string)%type.

(** Lines 85-89: one row of the table for each entry, and the sum of the
    limits. *)
Fixpoint for_rows (fields_with_limits : list Entry)
  (calculations : Calculations) (sum_of_credits : Z)
  : Result (Calculations * Z) :=
  match fields_with_limits with
  | [] => Ok (calculations, sum_of_credits)
  | (field, limit) :: rest =>
      let '(Field, Calculation, Result_) := calculations in
      match str_int limit with
      | inl e => Raise e
      | inr digits =>
          for_rows rest
                   (Field ++ [field],
                    Calculation ++ [("1 x " ++ digits)%string],
                    Result_ ++ [(digits ++ " credits")%string])
                   (sum_of_credits + limit)
      end
  end.

(** Lines 62-104: what follows [calculate_cost] in the [try] block. *)
Definition show_report (query : string) (total_cost : Z)
  (fields : list string) (fields_with_limits : list Entry) : Ui unit :=
  (st (St.write "### 📊 Query Analysis") ;;
   st St.divider ;;
   cost <- ui_lift (str_int total_cost) ;;
   st (St.metric "Estimated Maximum Cost" (cost ++ " credits")) ;;
   st (St.caption caption_maximum) ;;
   st St.divider ;;
   st (St.write "### 📌 Fields:") ;;
   for_fields fields ;;
   st St.divider ;;
   st (St.write "### 📖 Detailed Explanation") ;;
   st (St.write "Below is a breakdown of how the total credits are calculated based on your query:") ;;
   st (St.code query "graphql") ;;
   rows <- ui_lift (for_rows fields_with_limits ([], [], []) 0) ;;
   let '(Field, Calculation, Result_, sum_of_credits) := rows in
   df <- ui_lift (DataFrame_of [("Field", Field);
                                ("Calculation", Calculation);
                                ("Result", Result_)]) ;;
   st (St.table df) ;;
   st (St.caption caption_field) ;;
   st (St.caption caption_calculation) ;;
   st (St.caption caption_result) ;;
   st St.divider ;;
   let total_fields := Z.of_nat (length fields) in
   number <- ui_lift (str_int total_fields) ;;
   st (St.latex (latex_total_fields ++ number)) ;;
   credits <- ui_lift (str_int sum_of_credits) ;;
   st (St.latex (latex_sum_of_credits ++ credits)) ;;
   st (St.latex latex_total_credits) ;;
   credits' <- ui_lift (str_int sum_of_credits) ;;
   number' <- ui_lift (str_int total_fields) ;;
   cost' <- ui_lift (str_int total_cost) ;;
   st (St.latex ("= " ++ credits' ++ " + " ++ number' ++ " = " ++ cost')) ;;
   st (St.caption caption_formula))%ui.

Section Main.

Variable parse : string -> Result DocumentNode.

(** [str(e)] for an exception, as the f-string of line 110 formats it. *)
Variable str_exception : Exception -> string.

(** Lines 106-110: the two [except] clauses. *)
Definition except (e : Exception) : St.Call :=
  match e with
  | GraphQLSyntaxError _ => St.error syntax_error_message
  | _ => St.error ("Error: " ++ str_exception e)
  end.

(** Lines 43-58: the calls made before the button is tested. *)
Definition page_head : list St.Call :=
  [St.title "Staking Rewards API Cost Calculator";
   St.text_area "Enter your GraphQL query:" default_query 300;
   St.button "Calculate"].

(** [main()], for the text [query] in the text area and the state of the
    button: the page, and the store after the call. *)
Definition main (query : string) (clicked : bool) (h : Store)
  : list St.Call * Store :=
  let '(page, h') :=
    if clicked then
      match calculate_cost parse query h with
      | (inl e, h') => (page_head ++ [except e], h')
      | (inr (total_cost, fields, fields_with_limits), h') =>
          match show_report query total_cost fields
                            (deref h' fields_with_limits) page_head with
          | (inl e, page) => (page ++ [except e], h')
          | (inr _, page) => (page, h')
          end
      end
    else (page_head, h) in
  (page ++ [St.markdown footer], h').

End Main.

(** [str(e)] for the exceptions of the example queries: the message. *)
Definition str_examples (e : Exception) : string :=
  match e with
  | GraphQLSyntaxError message => message
  | ValueError message => message
  | AttributeError message => message
  | CostComputationError path => path
  end.

(** The rows of the table for the entries: the digits of each limit. *)
Definition rows_of (fields_with_limits : list Entry) (digits : list string)
  : Calculations :=
  (map fst fields_with_limits,
   map (fun d => ("1 x " ++ d)%string) digits,
   map (fun d => (d ++ " credits")%string) digits).

(** The page of a report, given the digits of the numbers it prints. *)
Definition report_page (query : string) (fields : list string)
  (fields_with_limits : list Entry)
  (cost number credits : string) (digits : list string) : list St.Call :=
  [St.write "### 📊 Query Analysis";
   St.divider;
   St.metric "Estimated Maximum Cost" (cost ++ " credits");
   St.caption caption_maximum;
   St.divider;
   St.write "### 📌 Fields:"]
  ++ map (fun field => St.markdown ("- `" ++ field ++ "`")) fields
  ++ [St.divider;
      St.write "### 📖 Detailed Explanation";
      St.write "Below is a breakdown of how the total credits are calculated based on your query:";
      St.code query "graphql";
      St.table [("Field", map fst fields_with_limits);
                ("Calculation", map (fun d => ("1 x " ++ d)%string) digits);
                ("Result", map (fun d => (d ++ " credits")%string) digits)];
      St.caption caption_field;
      St.caption caption_calculation;
      St.caption caption_result;
      St.divider;
      St.latex (latex_total_fields ++ number);
      St.latex (latex_sum_of_credits ++ credits);
      St.latex latex_total_credits;
      St.latex ("= " ++ credits ++ " + " ++ number ++ " = " ++ cost);
      St.caption caption_formula].

(** ** The walker, as the source writes it *)

(** [visit_node] is one function in the source: the limit of the node is
    read when the node is a field (lines 12-15), then the selections of the
    node, if it has any, are walked (lines 16-22). *)
Lemma visit_node_equation node path current_limit all_fields :
  visit_node node path current_limit all_fields =
  (child_limit <-
     lift (match node with
           | SelectionN (FieldNode _ arguments _) =>
               for_arguments current_limit current_limit arguments
           | _ => Ok current_limit
           end) ;;
   match node_selection_set node with
   | Some selections =>
       for_selections (fun selection => visit_node (SelectionN selection))
                      path child_limit selections
   | None => ret tt
   end) all_fields.
Proof.
  destruct node as [[selections | name selections |]
                   | [name arguments [selections |] | name | selections]];
    reflexivity.
Qed.

(** ** The walker only appends *)

Lemma appends_ret {A} (a : A) : appends (ret a).
Proof. intros acc. unfold ret. simpl. now rewrite app_nil_r. Qed.

Lemma appends_lift {A} (r : Result A) : appends (lift r).
Proof. intros acc. unfold lift. simpl. now rewrite app_nil_r. Qed.

Lemma appends_append (entry : Entry) : appends (append entry).
Proof. intros acc. reflexivity. Qed.

Lemma appends_bind {A B} (m : Walk A) (k : A -> Walk B) :
  appends m -> (forall a, appends (k a)) -> appends (bind m k).
Proof.
  intros Hm Hk acc. unfold bind.
  rewrite (Hm acc). destruct (m []) as [[e | a] es]; simpl.
  - reflexivity.
  - rewrite (Hk a (acc ++ es)), (Hk a es). simpl. now rewrite app_assoc.
Qed.

Create HintDb walk.

#[local] Hint Resolve appends_ret appends_lift appends_append appends_bind
  : walk.

Lemma appends_for_selections visit path child_limit selections :
  Forall (fun s => forall p c, appends (visit s p c)) selections ->
  appends (for_selections visit path child_limit selections).
Proof.
  induction 1 as [| s rest Hs _ IH]; simpl; auto with walk.
  apply appends_bind; auto with walk. intros name.
  apply appends_bind; auto with walk.
  destruct (has_selection_set s); auto with walk.
Qed.

Lemma appends_visit_selection s :
  forall path current_limit, appends (visit_selection s path current_limit).
Proof.
  induction s as [name arguments | name arguments selections IH | name
                 | selections IH] using SelectionNode_nested_ind;
    intros path current_limit; simpl; auto with walk.
  - apply appends_bind; auto with walk.
    intros child_limit. now apply appends_for_selections.
  - now apply appends_for_selections.
Qed.

Lemma appends_visit_node node path current_limit :
  appends (visit_node node path current_limit).
Proof.
  destruct node as [d | s]; simpl.
  - destruct (definition_selection_set d); auto with walk.
    apply appends_for_selections, Forall_forall.
    intros s _. apply appends_visit_selection.
  - apply appends_visit_selection.
Qed.

Lemma appends_for_definitions defs : appends (for_definitions defs).
Proof.
  induction defs as [| d rest IH]; cbn [for_definitions]; auto with walk.
  apply appends_bind; auto.
  destruct (definition_selection_set d) as [selections |]; auto with walk.
  apply appends_visit_node.
Qed.

(** ** Inversion of the monad *)

Lemma bind_returns {A B} (m : Walk A) (k : A -> Walk B) acc b acc' :
  bind m k acc = (inr b, acc') ->
  exists a acc1, m acc = (inr a, acc1) /\ k a acc1 = (inr b, acc').
Proof.
  unfold bind. destruct (m acc) as [[e | a] acc1]; intros H.
  - discriminate.
  - now exists a, acc1.
Qed.

Lemma bind_raises {A B} (m : Walk A) (k : A -> Walk B) acc e acc' :
  bind m k acc = (inl e, acc') ->
  m acc = (inl e, acc') \/
  exists a acc1, m acc = (inr a, acc1) /\ k a acc1 = (inl e, acc').
Proof.
  unfold bind. destruct (m acc) as [[e1 | a] acc1]; intros H.
  - left. now injection H as -> ->.
  - right. now exists a, acc1.
Qed.

Lemma lift_returns {A} (r : Result A) acc a acc' :
  lift r acc = (inr a, acc') -> r = inr a /\ acc' = acc.
Proof. unfold lift. intros H. now injection H as -> ->. Qed.

Lemma lift_raises {A} (r : Result A) acc e acc' :
  lift r acc = (inl e, acc') -> r = inl e /\ acc' = acc.
Proof. unfold lift. intros H. now injection H as -> ->. Qed.

(** ** The loop over the arguments *)

Lemma limit_values_cons a rest :
  limit_values (a :: rest) =
  if is_limit a then arg_value a :: limit_values rest else limit_values rest.
Proof. unfold limit_values. simpl. now destruct (is_limit a). Qed.

Lemma for_arguments_returns current_limit arguments :
  forall child_limit v,
    for_arguments current_limit child_limit arguments = inr v ->
    v = match rev (limit_values arguments) with
        | [] => child_limit
        | x :: _ =>
            match int_of_value x with inr z => z | inl _ => 1 end * current_limit
        end.
Proof.
  induction arguments as [| a rest IH]; intros c v H.
  - simpl in H. injection H as <-. reflexivity.
  - cbn [for_arguments] in H. rewrite limit_values_cons. unfold is_limit.
    destruct (String.eqb (arg_name a) "limit").
    + destruct (int_of_value (arg_value a)) as [e | w] eqn:Hw;
        [discriminate |].
      apply IH in H. simpl rev.
      destruct (rev (limit_values rest)) as [| x l]; simpl.
      * now rewrite Hw.
      * exact H.
    + now apply IH.
Qed.

Lemma for_arguments_own_limit current_limit arguments v :
  for_arguments current_limit current_limit arguments = inr v ->
  v = own_limit arguments * current_limit.
Proof.
  intros H. apply for_arguments_returns in H. unfold own_limit.
  destruct (rev (limit_values arguments)); [lia | exact H].
Qed.

(** Every literal of a [limit] argument was converted when the loop
    returns. *)
Lemma for_arguments_converts current_limit arguments :
  forall child_limit v,
    for_arguments current_limit child_limit arguments = inr v ->
    Forall (fun x => exists z, int_of_value x = inr z) (limit_values arguments).
Proof.
  induction arguments as [| a rest IH]; intros c v H.
  - constructor.
  - cbn [for_arguments] in H. rewrite limit_values_cons. unfold is_limit.
    destruct (String.eqb (arg_name a) "limit").
    + destruct (int_of_value (arg_value a)) as [e | w] eqn:Hw;
        [discriminate |].
      constructor; eauto.
    + eauto.
Qed.

Lemma int_of_value_raises v e :
  int_of_value v = inl e -> is_ValueError e \/ is_AttributeError e.
Proof.
  destruct v; cbn [int_of_value]; unfold int_str, no_attribute, Raise, Ok;
    try destruct (py_int value);
    intros H; try discriminate; injection H as <-;
    solve [left; eexists; reflexivity | right; eexists; reflexivity].
Qed.

(** The loop raises what [int] raised. *)
Lemma for_arguments_raises current_limit arguments :
  forall child_limit e,
    for_arguments current_limit child_limit arguments = inl e ->
    is_ValueError e \/ is_AttributeError e.
Proof.
  induction arguments as [| a rest IH]; intros c e H.
  - discriminate.
  - cbn [for_arguments] in H.
    destruct (String.eqb (arg_name a) "limit"); [| eauto].
    destruct (int_of_value (arg_value a)) as [e1 | w] eqn:Hw; [| eauto].
    injection H as <-. now apply int_of_value_raises in Hw.
Qed.

(** ** The entries the walker appends *)

Lemma entry_below_step s path child_limit name :
  name_value s = inr name ->
  has_selection_set s = true ->
  map (entry_below path child_limit) (occurrences s) =
  map (entry_below (path ++ [name]) (node_limit s * child_limit))
      (flat_map occurrences (children s)).
Proof.
  intros Hname Hset.
  assert (Hocc : occurrences s =
                 map (fun o : Occurrence => (s :: fst o, snd o))
                     (flat_map occurrences (children s))).
  { destruct s as [n args [sels |] | n | sels]; try discriminate; reflexivity. }
  assert (Hn : node_name s = name).
  { destruct s; simpl in *; unfold Ok, Raise in *; congruence. }
  rewrite Hocc, map_map. apply map_ext. intros [anc l].
  unfold entry_below, ancestors_product. simpl.
  rewrite Hn, <- app_assoc. simpl. f_equal. lia.
Qed.

Lemma entry_below_leaf s path child_limit name :
  name_value s = inr name ->
  has_selection_set s = false ->
  map (entry_below path child_limit) (occurrences s) =
  [(String.concat "." (path ++ [name]), child_limit)].
Proof.
  intros Hname Hset.
  destruct s as [n args [sels |] | n | sels]; try discriminate;
    injection Hname as <-; unfold entry_below, ancestors_product;
    cbn [occurrences map fst snd app product fold_right];
    now rewrite Z.mul_1_l.
Qed.

Lemma for_selections_returns path child_limit selections :
  Forall returns_entries selections ->
  forall acc u acc',
    for_selections visit_selection path child_limit selections acc
    = (inr u, acc') ->
    acc' = acc ++ map (entry_below path child_limit)
                      (flat_map occurrences selections).
Proof.
  induction 1 as [| s rest Hs _ IH]; intros acc u acc' H.
  - simpl in H. injection H as _ <-. simpl. now rewrite app_nil_r.
  - cbn [for_selections] in H.
    apply bind_returns in H as (name & acc1 & Hname & H).
    apply lift_returns in Hname as [Hname ->].
    apply bind_returns in H as (u1 & acc2 & Hstep & H).
    apply IH in H. subst acc'.
    simpl flat_map. rewrite map_app, app_assoc. f_equal.
    destruct (has_selection_set s) eqn:Hset.
    + apply Hs in Hstep. subst acc2. f_equal.
      symmetry. now apply entry_below_step.
    + unfold append in Hstep. injection Hstep as _ <-. f_equal.
      symmetry. now apply entry_below_leaf.
Qed.

Lemma visit_selection_returns s : returns_entries s.
Proof.
  induction s as [name arguments | name arguments selections IH | name
                 | selections IH] using SelectionNode_nested_ind;
    intros path current_limit acc u acc' H; simpl in H.
  - apply bind_returns in H as (c & acc1 & Hc & H).
    apply lift_returns in Hc as [_ ->].
    injection H as _ <-. simpl. now rewrite app_nil_r.
  - apply bind_returns in H as (c & acc1 & Hc & H).
    apply lift_returns in Hc as [Hc ->].
    apply for_arguments_own_limit in Hc. subst c.
    eapply for_selections_returns; eauto.
  - injection H as _ <-. simpl. now rewrite app_nil_r.
  - apply for_selections_returns in H; [| exact IH].
    unfold children. cbn [node_limit selection_set_of]. now rewrite Z.mul_1_l.
Qed.

Lemma entry_below_root o : entry_below [] 1 o = occurrence_entry o.
Proof.
  unfold entry_below, occurrence_entry, occurrence_path. simpl.
  now rewrite Z.mul_1_r.
Qed.

Lemma for_definitions_returns defs :
  forall acc u acc',
    for_definitions defs acc = (inr u, acc') ->
    acc' = acc ++ map occurrence_entry (flat_map definition_occurrences defs).
Proof.
  induction defs as [| d rest IH]; intros acc u acc' H.
  - simpl in H. injection H as _ <-. simpl. now rewrite app_nil_r.
  - cbn [for_definitions] in H.
    apply bind_returns in H as (u1 & acc1 & Hd & H).
    apply IH in H. subst acc'.
    simpl flat_map. rewrite map_app, app_assoc. f_equal.
    unfold definition_occurrences, visit_node in *.
    destruct (definition_selection_set d) as [selections |].
    + apply for_selections_returns in Hd.
      * subst acc1. f_equal. apply map_ext, entry_below_root.
      * apply Forall_forall. intros s _. apply visit_selection_returns.
    + injection Hd as _ <-. simpl. now rewrite app_nil_r.
Qed.

(** ** What the walker raises *)

Lemma name_value_raises s e :
  name_value s = inl e -> is_AttributeError e.
Proof.
  destruct s; simpl; unfold Ok, Raise, no_attribute; intros H;
    try discriminate.
  injection H as <-. eexists. reflexivity.
Qed.

Lemma for_selections_raises path child_limit selections :
  Forall raises_untyped selections ->
  forall acc e acc',
    for_selections visit_selection path child_limit selections acc
    = (inl e, acc') ->
    is_ValueError e \/ is_AttributeError e.
Proof.
  induction 1 as [| s rest Hs _ IH]; intros acc e acc' H.
  - discriminate.
  - cbn [for_selections] in H.
    apply bind_raises in H as [H | (name & acc1 & _ & H)].
    + apply lift_raises in H as [H _]. right. now apply name_value_raises in H.
    + apply bind_raises in H as [H | (u & acc2 & _ & H)]; [| eauto].
      destruct (has_selection_set s); [eauto | discriminate].
Qed.

Lemma visit_selection_raises s : raises_untyped s.
Proof.
  induction s as [name arguments | name arguments selections IH | name
                 | selections IH] using SelectionNode_nested_ind;
    intros path current_limit acc e acc' H; simpl in H.
  - apply bind_raises in H as [H | (c & acc1 & _ & H)]; [| discriminate].
    apply lift_raises in H as [H _]. eapply for_arguments_raises; eauto.
  - apply bind_raises in H as [H | (c & acc1 & _ & H)].
    + apply lift_raises in H as [H _]. eapply for_arguments_raises; eauto.
    + eapply for_selections_raises; eauto.
  - discriminate.
  - eapply for_selections_raises; eauto.
Qed.

Lemma for_definitions_raises defs :
  forall acc e acc',
    for_definitions defs acc = (inl e, acc') ->
    is_ValueError e \/ is_AttributeError e.
Proof.
  induction defs as [| d rest IH]; intros acc e acc' H.
  - discriminate.
  - cbn [for_definitions] in H.
    apply bind_raises in H as [H | (u & acc1 & _ & H)]; [| eauto].
    unfold visit_node in H.
    destruct (definition_selection_set d) as [selections |]; [| discriminate].
    eapply for_selections_raises; [| exact H].
    apply Forall_forall. intros s _. apply visit_selection_raises.
Qed.

(** ** A walk that returns has converted every limit it read *)

Lemma converted_not_rejected values :
  Forall (fun x => exists z, int_of_value x = inr z) values ->
  existsb (fun v => match int_of_value v with inl _ => true | inr _ => false end)
          values = false.
Proof.
  induction 1 as [| v rest [z Hz] _ IH]; simpl; [reflexivity |].
  now rewrite Hz.
Qed.

Lemma leaf_accepted s :
  has_selection_set s = false -> all_nodes accepted s = true.
Proof. destruct s as [n args [sels |] | n | sels]; now try discriminate. Qed.

Lemma for_selections_accepted path child_limit selections :
  Forall returns_accepted selections ->
  forall acc u acc',
    for_selections visit_selection path child_limit selections acc
    = (inr u, acc') ->
    forallb (all_nodes accepted) selections = true.
Proof.
  induction 1 as [| s rest Hs _ IH]; intros acc u acc' H; [reflexivity |].
  cbn [for_selections] in H.
  apply bind_returns in H as (name & acc1 & _ & H).
  apply bind_returns in H as (u1 & acc2 & Hstep & H).
  apply IH in H. cbn [forallb]. rewrite H, andb_true_r.
  destruct (has_selection_set s) eqn:Hset; [eauto | now apply leaf_accepted].
Qed.

Lemma visit_selection_accepted s : returns_accepted s.
Proof.
  induction s as [name arguments | name arguments selections IH | name
                 | selections IH] using SelectionNode_nested_ind;
    intros path current_limit acc u acc' H; try reflexivity; simpl in H.
  - apply bind_returns in H as (c & acc1 & Hc & H).
    apply lift_returns in Hc as [Hc _].
    apply for_arguments_converts, converted_not_rejected in Hc.
    apply for_selections_accepted in H; [| exact IH].
    cbn [all_nodes]. unfold accepted at 1, rejected_limit.
    now rewrite Hc, H.
  - apply for_selections_accepted in H; [| exact IH].
    cbn [all_nodes]. now rewrite H.
Qed.

Lemma for_definitions_accepted defs :
  forall acc u acc',
    for_definitions defs acc = (inr u, acc') ->
    all_nodes_of_document accepted {| definitions := defs |} = true.
Proof.
  unfold all_nodes_of_document. cbn [definitions].
  induction defs as [| d rest IH]; intros acc u acc' H; [reflexivity |].
  cbn [for_definitions] in H.
  apply bind_returns in H as (u1 & acc1 & Hd & H).
  apply IH in H. cbn [forallb]. rewrite H, andb_true_r.
  unfold visit_node in Hd.
  destruct (definition_selection_set d) as [selections |]; [| reflexivity].
  eapply for_selections_accepted; [| exact Hd].
  apply Forall_forall. intros s _. apply visit_selection_accepted.
Qed.

(** ** Limits that pass a test give products that pass it *)

Section Limits.

Variable literal_ok : ValueNode -> bool.
Variable ok : Z -> Prop.
Hypothesis ok_one : ok 1.
Hypothesis ok_mul : forall a b, ok a -> ok b -> ok (a * b).
Hypothesis ok_literal : forall v z,
    literal_ok v = true -> int_of_value v = inr z -> ok z.

Lemma own_limit_ok arguments :
  forallb literal_ok (limit_values arguments) = true ->
  ok (own_limit arguments).
Proof.
  intros H. unfold own_limit.
  destruct (rev (limit_values arguments)) as [| v l] eqn:Hrev; [exact ok_one |].
  destruct (int_of_value v) as [e | z] eqn:Hz; [exact ok_one |].
  apply (ok_literal v); [| exact Hz].
  rewrite forallb_forall in H. apply H, in_rev. rewrite Hrev. now left.
Qed.

Lemma node_limit_ok s :
  limits_pass literal_ok s = true -> ok (node_limit s).
Proof.
  destruct s as [n args sels | n | sels]; simpl; intros H;
    [now apply own_limit_ok | exact ok_one | exact ok_one].
Qed.

Lemma flat_occurrences_ok selections :
  Forall (products_ok literal_ok ok) selections ->
  forallb (all_nodes (limits_pass literal_ok)) selections = true ->
  Forall (fun o => ok (ancestors_product o)) (flat_map occurrences selections).
Proof.
  induction 1 as [| s rest Hs _ IH]; simpl; intros H; [constructor |].
  apply andb_prop in H as [H1 H2]. apply Forall_app. auto.
Qed.

Lemma below_ok s selections :
  ok (node_limit s) ->
  Forall (fun o => ok (ancestors_product o)) selections ->
  Forall (fun o => ok (ancestors_product o))
         (map (fun o : Occurrence => (s :: fst o, snd o)) selections).
Proof.
  intros Hs H. apply Forall_map. eapply Forall_impl; [| exact H].
  intros o Ho. unfold ancestors_product in *. simpl. now apply ok_mul.
Qed.

Lemma occurrences_ok s : products_ok literal_ok ok s.
Proof.
  induction s as [name arguments | name arguments selections IH | name
                 | selections IH] using SelectionNode_nested_ind;
    intros H; cbn [all_nodes] in H; apply andb_prop in H as [H1 H2].
  - repeat constructor. exact ok_one.
  - cbn [occurrences]. apply below_ok; [now apply node_limit_ok |].
    now apply flat_occurrences_ok.
  - repeat constructor. exact ok_one.
  - cbn [occurrences]. apply below_ok; [exact ok_one |].
    now apply flat_occurrences_ok.
Qed.

Lemma document_occurrences_ok document :
  all_nodes_of_document (limits_pass literal_ok) document = true ->
  Forall (fun e : Entry => ok (snd e))
         (map occurrence_entry (document_occurrences document)).
Proof.
  unfold all_nodes_of_document, document_occurrences.
  intros H. apply Forall_map. simpl.
  induction (definitions document) as [| d rest IH]; simpl in *;
    [constructor |].
  apply andb_prop in H as [H1 H2]. apply Forall_app. split; [| auto].
  unfold definition_occurrences.
  destruct (definition_selection_set d) as [selections |]; [| constructor].
  apply flat_occurrences_ok; [| exact H1].
  apply Forall_forall. intros s _. apply occurrences_ok.
Qed.

End Limits.

(** ** The cost report *)

Lemma fold_left_limits (entries : list Entry) :
  forall start,
    fold_left (fun total (entry : Entry) => total + snd entry) entries start
    = start + sum (map snd entries).
Proof.
  induction entries as [| e rest IH]; intros start; simpl.
  - lia.
  - rewrite IH. unfold sum. lia.
Qed.

Lemma sum_of_ones (entries : list Entry) :
  Forall (fun e => snd e = 1) entries ->
  sum (map snd entries) = Z.of_nat (length entries).
Proof.
  induction 1 as [| e rest He _ IH]; [reflexivity |].
  cbn [map sum fold_right length]. fold (sum (map snd rest)).
  rewrite He, IH. lia.
Qed.

Lemma deref_fresh (h : Store) (fields : list Entry) :
  deref (h ++ [fields]) (length h) = fields.
Proof. unfold deref. apply nth_middle. Qed.

Lemma deref_older (h : Store) (fields : list Entry) (l : Loc) :
  (l < length h)%nat -> deref (h ++ [fields]) l = deref h l.
Proof. intros H. unfold deref. now apply app_nth1. Qed.

Section Report.

Variable parse : string -> Result DocumentNode.

Lemma calculate_cost_store query h :
  snd (calculate_cost parse query h) =
  match parse query with
  | inl _ => h
  | inr document => h ++ [snd (for_definitions (definitions document) [])]
  end.
Proof.
  unfold calculate_cost, extract_fields_and_limit.
  destruct (parse query) as [e | document]; [reflexivity |].
  now destruct (for_definitions (definitions document) []) as [[e | u] fields].
Qed.

Lemma cost_report_of query h :
  cost_report parse query h = report_of (parse query).
Proof.
  unfold cost_report, report_of, calculate_cost, extract_fields_and_limit.
  destruct (parse query) as [e | document]; [reflexivity |].
  destruct (for_definitions (definitions document) []) as [[e | u] fields];
    [reflexivity |].
  unfold Ok. cbn [observe]. now rewrite deref_fresh.
Qed.

Lemma cost_report_returns query h total fields entries :
  cost_report parse query h = Ok (total, fields, entries) ->
  exists document,
    parse query = Ok document /\
    for_definitions (definitions document) [] = (Ok tt, entries) /\
    entries = map occurrence_entry (document_occurrences document) /\
    total = sum (map snd entries) + Z.of_nat (length entries) /\
    fields = map fst entries.
Proof.
  rewrite cost_report_of. unfold report_of, Ok.
  destruct (parse query) as [e | document]; [discriminate |].
  destruct (for_definitions (definitions document) [])
    as [[e | []] fs] eqn:Hwalk; [discriminate |].
  intros H. injection H as <- <- <-.
  exists document.
  split; [reflexivity |]. split; [exact Hwalk |].
  split; [now apply for_definitions_returns in Hwalk |].
  split; [| reflexivity].
  now rewrite fold_left_limits.
Qed.

Lemma cost_report_raises query h document e :
  parse query = Ok document ->
  cost_report parse query h = Raise e ->
  is_ValueError e \/ is_AttributeError e.
Proof.
  rewrite cost_report_of. unfold report_of, Ok, Raise. intros ->.
  destruct (for_definitions (definitions document) [])
    as [[e1 | u] fs] eqn:Hwalk; [| discriminate].
  intros H. injection H as <-. now apply for_definitions_raises in Hwalk.
Qed.

End Report.

(** ** The walker returns on documents it can read *)

Lemma for_arguments_total current_limit arguments :
  existsb (fun v => match int_of_value v with inl _ => true | inr _ => false end)
          (limit_values arguments) = false ->
  forall child_limit,
  exists v, for_arguments current_limit child_limit arguments = inr v.
Proof.
  induction arguments as [| a rest IH]; intros H c.
  - now exists c.
  - cbn [for_arguments]. rewrite limit_values_cons in H. unfold is_limit in H.
    destruct (String.eqb (arg_name a) "limit"); [| now apply IH].
    cbn [existsb] in H. apply orb_false_elim in H as [Ha H].
    destruct (int_of_value (arg_value a)) as [e | w]; [discriminate |].
    now apply IH.
Qed.

Lemma for_selections_total path child_limit selections :
  Forall returns_when_readable selections ->
  forallb (all_nodes named) selections = true ->
  forallb (all_nodes accepted) selections = true ->
  forall acc,
  exists acc',
    for_selections visit_selection path child_limit selections acc
    = (inr tt, acc').
Proof.
  induction 1 as [| s rest Hs _ IH]; intros Hnamed Hacc acc.
  - now exists acc.
  - cbn [forallb] in Hnamed, Hacc.
    apply andb_prop in Hnamed as [Hn1 Hn2]. apply andb_prop in Hacc as [Ha1 Ha2].
    cbn [for_selections]. unfold bind at 1.
    assert (Hname : name_value s = inr (node_name s)).
    { destruct s; try reflexivity. discriminate. }
    unfold lift at 1. rewrite Hname. unfold bind.
    destruct (has_selection_set s) eqn:Hset.
    + destruct (Hs Hset Hn1 Ha1 (path ++ [node_name s]) child_limit acc)
        as [acc1 ->].
      apply IH; assumption.
    + unfold append. apply IH; assumption.
Qed.

Lemma visit_selection_total s : returns_when_readable s.
Proof.
  induction s as [name arguments | name arguments selections IH | name
                 | selections IH] using SelectionNode_nested_ind;
    intros Hset Hnamed Hacc path current_limit acc; try discriminate.
  cbn [all_nodes] in Hnamed, Hacc.
  apply andb_prop in Hnamed as [_ Hn]. apply andb_prop in Hacc as [Ha1 Ha2].
  unfold accepted, rejected_limit in Ha1. apply negb_true_iff in Ha1.
  destruct (for_arguments_total current_limit arguments Ha1 current_limit)
    as [v Hv].
  cbn [visit_selection]. unfold bind, lift. rewrite Hv.
  now apply for_selections_total.
Qed.

Lemma for_definitions_total defs :
  all_nodes_of_document named {| definitions := defs |} = true ->
  all_nodes_of_document accepted {| definitions := defs |} = true ->
  forall acc, exists acc', for_definitions defs acc = (inr tt, acc').
Proof.
  unfold all_nodes_of_document. cbn [definitions].
  induction defs as [| d rest IH]; intros Hnamed Hacc acc.
  - now exists acc.
  - cbn [forallb] in Hnamed, Hacc.
    apply andb_prop in Hnamed as [Hn1 Hn2]. apply andb_prop in Hacc as [Ha1 Ha2].
    cbn [for_definitions]. unfold bind, visit_node.
    destruct (definition_selection_set d) as [selections |].
    + destruct (for_selections_total [] 1 selections) with (acc := acc)
        as [acc1 ->]; try assumption; [| now apply IH].
      apply Forall_forall. intros s _. apply visit_selection_total.
    + unfold ret. now apply IH.
Qed.

(** ** Properties of all nodes *)

Lemma all_nodes_impl (p q : SelectionNode -> bool) :
  (forall s, p s = true -> q s = true) ->
  forall s, all_nodes p s = true -> all_nodes q s = true.
Proof.
  intros Hpq.
  assert (Hlist : forall selections,
             Forall (fun s => all_nodes p s = true -> all_nodes q s = true)
                    selections ->
             forallb (all_nodes p) selections = true ->
             forallb (all_nodes q) selections = true).
  { induction 1 as [| s rest Hs _ IH]; simpl; intros H; [reflexivity |].
    apply andb_prop in H as [H1 H2]. now rewrite Hs, IH. }
  induction s as [name arguments | name arguments selections IH | name
                 | selections IH] using SelectionNode_nested_ind;
    cbn [all_nodes]; intros H; apply andb_prop in H as [H1 H2];
    rewrite (Hpq _ H1); cbn [andb]; auto.
Qed.

Lemma all_nodes_of_document_impl (p q : SelectionNode -> bool) document :
  (forall s, p s = true -> q s = true) ->
  all_nodes_of_document p document = true ->
  all_nodes_of_document q document = true.
Proof.
  intros Hpq. unfold all_nodes_of_document.
  induction (definitions document) as [| d rest IH]; simpl; intros H;
    [reflexivity |].
  apply andb_prop in H as [H1 H2]. rewrite (IH H2), andb_true_r.
  destruct (definition_selection_set d) as [selections |]; [| reflexivity].
  rewrite forallb_forall in *. intros s Hs.
  now apply (all_nodes_impl p q Hpq), H1.
Qed.

(** A limit that is an integer literal is converted. *)
Lemma int_literals_accepted (literal_ok : ValueNode -> bool) :
  (forall v, literal_ok v = true -> exists z, int_of_value v = inr z) ->
  forall s, limits_pass literal_ok s = true -> accepted s = true.
Proof.
  intros Hok s H. unfold accepted. apply negb_true_iff.
  destruct s as [n args [sels |] | n | sels]; try reflexivity.
  cbn [limits_pass rejected_limit] in *.
  apply converted_not_rejected, Forall_forall. intros v Hv.
  rewrite forallb_forall in H. auto.
Qed.

Lemma nonnegative_int_literal_converts v :
  nonnegative_int_literal v = true ->
  exists z, int_of_value v = inr z /\ 0 <= z.
Proof.
  destruct v; try discriminate. simpl.
  destruct (int_str value) as [e | z]; [discriminate |].
  intros H. exists z. split; [reflexivity | lia].
Qed.

Lemma positive_int_literal_converts v :
  positive_int_literal v = true ->
  exists z, int_of_value v = inr z /\ 0 < z.
Proof.
  destruct v; try discriminate. simpl.
  destruct (int_str value) as [e | z]; [discriminate |].
  intros H. exists z. split; [reflexivity | lia].
Qed.

(** ** The definitions of a document, one by one *)

Lemma for_definitions_split defs :
  forall acc u acc',
    for_definitions defs acc = (inr u, acc') ->
    exists per_definition,
      Forall2 (fun d entries =>
                 visit_node (DefinitionN d) [] 1 [] = (Ok tt, entries))
              defs per_definition /\
      acc' = acc ++ concat per_definition.
Proof.
  induction defs as [| d rest IH]; intros acc u acc' H.
  - simpl in H. injection H as _ <-. exists []. split; [constructor |].
    simpl. now rewrite app_nil_r.
  - cbn [for_definitions] in H.
    apply bind_returns in H as (u1 & acc1 & Hd & H).
    apply IH in H as (per & Hper & ->).
    assert (Hd' : visit_node (DefinitionN d) [] 1 acc = (inr u1, acc1)).
    { destruct d; exact Hd. }
    rewrite (appends_visit_node (DefinitionN d) [] 1 acc) in Hd'.
    destruct (visit_node (DefinitionN d) [] 1 []) as [r entries] eqn:Hvisit.
    simpl in Hd'. injection Hd' as -> <-. destruct u1.
    exists (entries :: per). split; [now constructor |].
    simpl. now rewrite app_assoc.
Qed.

(** ** The properties of the specification *)

Section Claims.

Variable parse : string -> Result DocumentNode.

(** C1, as amended.  The walker never reads the arguments of a leaf: the
    entry of a leaf field is its path with the limit inherited from the
    enclosing node, whatever the arguments of the leaf are.  A query whose
    only selection is a leaf field [name], with a limit argument or any
    other arguments, yields the single entry [(name, 1)] and the total
    cost 2. *)
Theorem leaf_limit_is_not_read query h name arguments :
  parse query = Ok (query_of [FieldNode name arguments None]) ->
  cost_report parse query h = Ok (2, [name], [(name, 1)]) /\
  forall path child_limit rest acc,
    for_selections visit_selection path child_limit
                   (FieldNode name arguments None :: rest) acc
    = for_selections visit_selection path child_limit rest
                     (acc ++ [(String.concat "." (path ++ [name]), child_limit)]).
Proof.
  intros Hparse. split.
  - rewrite cost_report_of, Hparse. reflexivity.
  - reflexivity.
Qed.

(** C2.  When the query parses and the walker completes, the total cost is
    the sum of the limits of the entries plus the number of entries, the
    entries being the content of the list [extract_fields_and_limit]
    returns. *)
Theorem total_cost_is_sum_plus_count query h total fields entries :
  cost_report parse query h = Ok (total, fields, entries) ->
  total = sum (map snd entries) + Z.of_nat (length entries) /\
  exists l h',
    extract_fields_and_limit parse query h = (Ok l, h') /\
    deref h' l = entries.
Proof.
  intros H.
  destruct (cost_report_returns parse query h total fields entries H)
    as (document & Hparse & Hwalk & _ & Htotal & _).
  split; [exact Htotal |].
  exists (length h), (h ++ [entries]). split; [| apply deref_fresh].
  unfold extract_fields_and_limit. rewrite Hparse. unfold Ok.
  unfold Ok in Hwalk. now rewrite Hwalk.
Qed.

(** C3.  The limit recorded for a leaf is the product of the limits of its
    strict ancestors, a field without a limit argument counting for 1 and a
    field with the limit argument [v] for the integer of [v]; the product
    starts from 1 at the root.  The walker returns on every document whose
    selections are fields and whose limits are read as integers.  The
    query [{ a(limit:10) { b(limit:3) { c } } }], whose literals [int]
    reads as 10 and 3, yields the single entry [("a.b.c", 30)] and the
    total cost 31, and a query of fields without limit arguments yields
    twice the number of its leaves. *)
Theorem effective_limit_is_product_of_ancestor_limits query h document :
  parse query = Ok document ->
  (forall total fields entries,
      cost_report parse query h = Ok (total, fields, entries) ->
      entries = map (fun o : Occurrence =>
                       (occurrence_path o, product (map node_limit (fst o))))
                    (document_occurrences document)) /\
  (forall name arguments selection_set,
      limit_values arguments = [] ->
      node_limit (FieldNode name arguments selection_set) = 1) /\
  (forall name arguments selection_set v z,
      limit_values arguments = [v] -> int_of_value v = Ok z ->
      node_limit (FieldNode name arguments selection_set) = z) /\
  (all_nodes_of_document named document = true ->
   all_nodes_of_document accepted document = true ->
   exists report, cost_report parse query h = Ok report) /\
  (document = document_P3 ->
   py_int "10" = inr 10 -> py_int "3" = inr 3 ->
   cost_report parse query h = Ok (31, ["a.b.c"], [("a.b.c", 30)])) /\
  (all_nodes_of_document named document = true ->
   all_nodes_of_document without_limit document = true ->
   exists fields entries,
     cost_report parse query h
     = Ok (2 * Z.of_nat (length (document_occurrences document)),
           fields, entries)).
Proof.
  intros Hparse.
  assert (Htotal : all_nodes_of_document named document = true ->
                   all_nodes_of_document accepted document = true ->
                   exists report, cost_report parse query h = Ok report).
  { intros Hnamed Hacc. rewrite cost_report_of, Hparse. unfold report_of, Ok.
    destruct document as [defs]. cbn [definitions].
    destruct (for_definitions_total defs Hnamed Hacc []) as [entries ->].
    eauto. }
  repeat apply conj.
  - intros total fields entries H.
    apply cost_report_returns in H as (d & Hd & _ & -> & _).
    rewrite Hparse in Hd. injection Hd as <-. reflexivity.
  - intros name arguments selection_set H. simpl. unfold own_limit.
    now rewrite H.
  - intros name arguments selection_set v z H Hz. simpl. unfold own_limit.
    rewrite H. simpl. unfold Ok in Hz. now rewrite Hz.
  - exact Htotal.
  - intros -> H10 H3. rewrite cost_report_of, Hparse.
    unfold report_of, Ok, document_P3, query_of, leaf, limit.
    cbn. unfold lift, bind, int_str. rewrite H10.
    cbn. unfold lift, bind, int_str. rewrite H3. reflexivity.
  - intros Hnamed Hnone.
    destruct Htotal as [[[total fields] entries] Hreport]; [exact Hnamed | |].
    { revert Hnone. apply all_nodes_of_document_impl.
      apply int_literals_accepted. discriminate. }
    exists fields, entries. rewrite Hreport. do 3 f_equal.
    apply cost_report_returns in Hreport as (d & Hd & _ & Hentries & -> & _).
    rewrite Hparse in Hd. injection Hd as <-.
    assert (Hones : Forall (fun e : Entry => snd e = 1) entries).
    { rewrite Hentries.
      apply (document_occurrences_ok (fun _ => false) (fun z => z = 1));
        [reflexivity | intros a b -> ->; reflexivity | discriminate
        | exact Hnone]. }
    rewrite (sum_of_ones entries Hones), Hentries, length_map. lia.
Qed.

(** C4, as amended.  The walker has no error class of its own.  When a
    field with a selection set carries a limit whose literal [int] rejects,
    the walk raises the [ValueError] of [int], or an [AttributeError], with
    the message of the interpreter and no field path, and returns no
    report; a string literal that [int] rejects on the only field of a
    query raises the [ValueError] of [int] as it is.  Whatever [int]
    accepts is converted without a check. *)
Theorem rejected_limit_raises_untyped_error query h document :
  parse query = Ok document ->
  (forall e, cost_report parse query h = Raise e ->
             is_ValueError e \/ is_AttributeError e) /\
  (some_node_of_document rejected_limit document = true ->
   exists e, cost_report parse query h = Raise e /\
             (is_ValueError e \/ is_AttributeError e)) /\
  (forall name s selections message,
      document = query_of [FieldNode name [limit (StringValueNode s)]
                                     (Some selections)] ->
      py_int s = inl message ->
      cost_report parse query h = Raise (ValueError message)).
Proof.
  intros Hparse. repeat apply conj.
  - intros e He. eapply cost_report_raises; eauto.
  - intros Hsome. unfold some_node_of_document in Hsome.
    apply negb_true_iff in Hsome.
    rewrite cost_report_of, Hparse. unfold report_of, Ok.
    destruct (for_definitions (definitions document) [])
      as [[e | u] entries] eqn:Hwalk.
    + exists e. split; [reflexivity |].
      now apply for_definitions_raises in Hwalk.
    + apply for_definitions_accepted in Hwalk. destruct document as [defs].
      unfold accepted in Hwalk. cbn [definitions] in Hwalk. congruence.
  - intros name s selections message -> Hs.
    rewrite cost_report_of, Hparse. unfold report_of, Ok.
    cbn. unfold lift, bind, int_str. now rewrite Hs.
Qed.

(** C5, as amended.  When every limit argument of the query is an integer
    literal that is not negative, every entry has a limit that is not
    negative, and the walker returns if the selections are fields; the
    limits of the entries are positive when no limit literal is 0. *)
Theorem effective_limits_are_not_negative query h document :
  parse query = Ok document ->
  all_nodes_of_document (limits_pass nonnegative_int_literal) document = true ->
  (forall total fields entries,
      cost_report parse query h = Ok (total, fields, entries) ->
      Forall (fun e : Entry => 0 <= snd e) entries /\
      (all_nodes_of_document (limits_pass positive_int_literal) document = true ->
       Forall (fun e : Entry => 0 < snd e) entries)) /\
  (all_nodes_of_document named document = true ->
   exists report, cost_report parse query h = Ok report).
Proof.
  intros Hparse Hconv. split.
  - intros total fields entries H.
    apply cost_report_returns in H as (d & Hd & _ & -> & _).
    rewrite Hparse in Hd. injection Hd as <-. split.
    + apply (document_occurrences_ok nonnegative_int_literal (fun z => 0 <= z));
        [lia | intros; lia | | exact Hconv].
      intros v z Hv Hz.
      apply nonnegative_int_literal_converts in Hv as (z' & Hz' & Hpos).
      congruence.
    + intros Hpos.
      apply (document_occurrences_ok positive_int_literal (fun z => 0 < z));
        [lia | intros; lia | | exact Hpos].
      intros v z Hv Hz.
      apply positive_int_literal_converts in Hv as (z' & Hz' & Hpos').
      congruence.
  - intros Hnamed. rewrite cost_report_of, Hparse. unfold report_of, Ok.
    destruct document as [defs]. cbn [definitions].
    destruct (for_definitions_total defs Hnamed) with (acc := @nil Entry)
      as [entries ->]; [| eauto].
    revert Hconv. apply all_nodes_of_document_impl.
    apply int_literals_accepted. intros v Hv.
    apply nonnegative_int_literal_converts in Hv as (z & Hz & _). eauto.
Qed.

(** C6.  Each definition of the document is walked on its own by
    [visit_node(definition)], from the empty path and the limit 1 and
    whatever the definitions before it appended; the entries of the report
    are the entries of the definitions, concatenated in document order. *)
Theorem definitions_are_walked_independently
  query h document total fields entries :
  parse query = Ok document ->
  cost_report parse query h = Ok (total, fields, entries) ->
  exists per_definition,
    Forall2 (fun d entries_of_d =>
               visit_node (DefinitionN d) [] 1 [] = (Ok tt, entries_of_d))
            (definitions document) per_definition /\
    entries = concat per_definition.
Proof.
  intros Hparse H.
  apply cost_report_returns in H as (d & Hd & Hwalk & _).
  rewrite Hparse in Hd. injection Hd as <-.
  apply for_definitions_split in Hwalk as (per & Hper & ->).
  now exists per.
Qed.

(** C7.  The field paths of the report are the paths of the leaf
    occurrences of the document, enumerated left to right and depth
    first; every occurrence has its own entry, so repeated leaves are all
    kept. *)
Theorem field_paths_follow_document_order
  query h document total fields entries :
  parse query = Ok document ->
  cost_report parse query h = Ok (total, fields, entries) ->
  fields = map occurrence_path (document_occurrences document) /\
  entries = map occurrence_entry (document_occurrences document) /\
  length entries = length (document_occurrences document).
Proof.
  intros Hparse H.
  apply cost_report_returns in H as (d & Hd & _ & -> & _ & ->).
  rewrite Hparse in Hd. injection Hd as <-.
  rewrite map_map, length_map. repeat split.
Qed.

(** C8.  When the parser raises a syntax error, both functions raise that
    same error, message included; nothing is allocated in the store, the
    walker is not run and no report is returned. *)
Theorem syntax_error_is_propagated query h message :
  parse query = Raise (GraphQLSyntaxError message) ->
  extract_fields_and_limit parse query h
  = (Raise (GraphQLSyntaxError message), h) /\
  calculate_cost parse query h = (Raise (GraphQLSyntaxError message), h) /\
  cost_report parse query h = Raise (GraphQLSyntaxError message).
Proof.
  intros Hparse.
  unfold cost_report, calculate_cost, extract_fields_and_limit.
  rewrite Hparse. repeat split.
Qed.

(** C9.  The report of a call depends on the query only: it is the same
    from any two stores, a second call made after a first one returns the
    same report, and the second call leaves the list returned by the first
    one as it was. *)
Theorem cost_report_is_deterministic query h h' :
  cost_report parse query h = cost_report parse query h' /\
  observe (calculate_cost parse query (snd (calculate_cost parse query h)))
  = observe (calculate_cost parse query h) /\
  observe (fst (calculate_cost parse query h),
           snd (calculate_cost parse query (snd (calculate_cost parse query h))))
  = observe (calculate_cost parse query h).
Proof.
  split; [now rewrite !cost_report_of |].
  split; [fold (cost_report parse query (snd (calculate_cost parse query h)));
          fold (cost_report parse query h); now rewrite !cost_report_of |].
  rewrite !calculate_cost_store.
  unfold calculate_cost, extract_fields_and_limit.
  destruct (parse query) as [e | document]; [reflexivity |].
  destruct (for_definitions (definitions document) []) as [[e | u] fs];
    [reflexivity |].
  unfold Ok. cbn [fst snd observe].
  rewrite (deref_older (h ++ [fs]) fs (length h))
    by (rewrite length_app; simpl; lia).
  reflexivity.
Qed.

(** C10.  In a report, the field paths are the first components of the
    entries, in the same order; the two lists have the same length. *)
Theorem field_paths_are_entry_paths query h total fields entries :
  cost_report parse query h = Ok (total, fields, entries) ->
  fields = map fst entries /\ length fields = length entries.
Proof.
  intros H. apply cost_report_returns in H as (d & _ & _ & _ & _ & ->).
  now rewrite length_map.
Qed.

End Claims.

(** ** Further properties of the walker *)

Lemma for_arguments_limits_only current_limit arguments :
  forall child_limit,
    for_arguments current_limit child_limit (filter is_limit arguments)
    = for_arguments current_limit child_limit arguments.
Proof.
  induction arguments as [| a rest IH]; intros c; [reflexivity |].
  cbn [filter]. unfold is_limit at 1.
  destruct (String.eqb (arg_name a) "limit") eqn:Ha; cbn [for_arguments];
    rewrite ?Ha; [| apply IH].
  destruct (int_of_value (arg_value a)); [reflexivity | apply IH].
Qed.

Lemma for_arguments_app current_limit arguments more :
  forall child_limit,
    for_arguments current_limit child_limit (arguments ++ more)
    = match for_arguments current_limit child_limit arguments with
      | inl e => Raise e
      | inr v => for_arguments current_limit v more
      end.
Proof.
  induction arguments as [| a rest IH]; intros c; [reflexivity |].
  cbn [app for_arguments].
  destruct (String.eqb (arg_name a) "limit"); [| apply IH].
  destruct (int_of_value (arg_value a)); [reflexivity | apply IH].
Qed.

Lemma skeleton_name s : name_value (skeleton s) = name_value s.
Proof. now destruct s as [n args [sels |] | n | sels]. Qed.

Lemma skeleton_has_selection_set s :
  has_selection_set (skeleton s) = has_selection_set s.
Proof. now destruct s as [n args [sels |] | n | sels]. Qed.

Lemma for_selections_skeleton path child_limit selections :
  Forall same_walk_as_skeleton selections ->
  forall acc,
    for_selections visit_selection path child_limit (map skeleton selections) acc
    = for_selections visit_selection path child_limit selections acc.
Proof.
  induction 1 as [| s rest Hs _ IH]; intros acc; [reflexivity |].
  cbn [map for_selections]. unfold bind, lift.
  rewrite skeleton_name, skeleton_has_selection_set.
  destruct (name_value s) as [e | name]; [reflexivity |].
  destruct (has_selection_set s) eqn:Hset.
  - rewrite (Hs Hset).
    destruct (visit_selection s (path ++ [name]) child_limit acc)
      as [[e | u] acc1]; [reflexivity | apply IH].
  - unfold append. apply IH.
Qed.

Lemma visit_selection_skeleton s : same_walk_as_skeleton s.
Proof.
  induction s as [name arguments | name arguments selections IH | name
                 | selections IH] using SelectionNode_nested_ind;
    intros Hset path current_limit acc; try discriminate.
  - cbn [skeleton visit_selection]. unfold bind, lift.
    rewrite for_arguments_limits_only.
    destruct (for_arguments current_limit current_limit arguments);
      [reflexivity |].
    now apply for_selections_skeleton.
  - cbn [skeleton visit_selection]. now apply for_selections_skeleton.
Qed.

Lemma for_definitions_skeleton defs :
  forall acc,
    for_definitions (map skeleton_definition defs) acc
    = for_definitions defs acc.
Proof.
  assert (Hsel : forall selections acc,
             for_selections visit_selection [] 1 (map skeleton selections) acc
             = for_selections visit_selection [] 1 selections acc).
  { intros selections acc. apply for_selections_skeleton, Forall_forall.
    intros s _. apply visit_selection_skeleton. }
  induction defs as [| d rest IH]; intros acc; [reflexivity |].
  cbn [map for_definitions]. unfold bind.
  destruct d as [selections | name selections |];
    cbn [skeleton_definition definition_selection_set visit_node];
    rewrite ?Hsel;
    try (destruct (for_selections visit_selection [] 1 selections acc)
          as [[e | u] acc1]; [reflexivity | apply IH]).
  apply IH.
Qed.

Lemma all_nodes_children (p : SelectionNode -> bool) s :
  all_nodes p s = p s && forallb (all_nodes p) (children s).
Proof. now destruct s as [n args [sels |] | n | sels]. Qed.

Lemma for_selections_named path child_limit selections :
  Forall returns_named_children selections ->
  forall acc u acc',
    for_selections visit_selection path child_limit selections acc
    = (inr u, acc') ->
    forallb (all_nodes named) selections = true.
Proof.
  induction 1 as [| s rest Hs _ IH]; intros acc u acc' H; [reflexivity |].
  cbn [for_selections] in H.
  apply bind_returns in H as (name & acc1 & Hname & H).
  apply lift_returns in Hname as [Hname _].
  apply bind_returns in H as (u1 & acc2 & Hstep & H).
  apply IH in H. cbn [forallb]. rewrite H, andb_true_r.
  rewrite all_nodes_children.
  assert (Hnamed : named s = true).
  { destruct s; [reflexivity | reflexivity | discriminate]. }
  rewrite Hnamed. cbn [andb].
  destruct (has_selection_set s) eqn:Hset; [eauto |].
  destruct s as [n args [sels |] | n | sels]; now try discriminate.
Qed.

Lemma visit_selection_named s : returns_named_children s.
Proof.
  induction s as [name arguments | name arguments selections IH | name
                 | selections IH] using SelectionNode_nested_ind;
    intros path current_limit acc u acc' H; try reflexivity; simpl in H.
  - apply bind_returns in H as (c & acc1 & _ & H).
    apply for_selections_named in H; [| exact IH]. exact H.
  - apply for_selections_named in H; [| exact IH]. exact H.
Qed.

Lemma for_definitions_named defs :
  forall acc u acc',
    for_definitions defs acc = (inr u, acc') ->
    all_nodes_of_document named {| definitions := defs |} = true.
Proof.
  unfold all_nodes_of_document. cbn [definitions].
  induction defs as [| d rest IH]; intros acc u acc' H; [reflexivity |].
  cbn [for_definitions] in H.
  apply bind_returns in H as (u1 & acc1 & Hd & H).
  apply IH in H. cbn [forallb]. rewrite H, andb_true_r.
  unfold visit_node in Hd.
  destruct (definition_selection_set d) as [selections |]; [| reflexivity].
  eapply for_selections_named; [| exact Hd].
  apply Forall_forall. intros s _. apply visit_selection_named.
Qed.

Lemma for_selections_app visit path child_limit selections more :
  forall acc,
    for_selections visit path child_limit (selections ++ more) acc
    = (for_selections visit path child_limit selections ;;
       for_selections visit path child_limit more) acc.
Proof.
  induction selections as [| s rest IH]; intros acc; [reflexivity |].
  cbn [app for_selections]. unfold bind, lift.
  destruct (name_value s) as [e | name]; [reflexivity |].
  destruct (has_selection_set s).
  - destruct (visit s (path ++ [name]) child_limit acc) as [[e | u] acc1];
      [reflexivity | apply IH].
  - unfold append. apply IH.
Qed.

Lemma concat_below_field name path :
  path <> [] ->
  String.concat "." (name :: path) = below_field name (String.concat "." path).
Proof. destruct path; [congruence | reflexivity]. Qed.

Lemma for_definitions_query selections acc :
  for_definitions [OperationDefinitionNode selections] acc
  = match for_selections visit_selection [] 1 selections acc with
    | (inl e, acc') => (Raise e, acc')
    | (inr _, acc') => (Ok tt, acc')
    end.
Proof. reflexivity. Qed.

Lemma report_of_query selections :
  report_of (Ok (query_of selections))
  = match for_selections visit_selection [] 1 selections [] with
    | (inl e, _) => Raise e
    | (inr _, entries) =>
        Ok (sum (map snd entries) + Z.of_nat (length entries),
            map fst entries, entries)
    end.
Proof.
  unfold report_of, Ok, query_of. cbn [definitions].
  rewrite for_definitions_query.
  destruct (for_selections visit_selection [] 1 selections [])
    as [[e | u] entries]; [reflexivity |].
  now rewrite fold_left_limits.
Qed.

Lemma report_of_query_returns selections total fields entries :
  report_of (Ok (query_of selections)) = Ok (total, fields, entries) ->
  for_selections visit_selection [] 1 selections [] = (Ok tt, entries) /\
  total = sum (map snd entries) + Z.of_nat (length entries) /\
  fields = map fst entries.
Proof.
  rewrite report_of_query. unfold Ok.
  destruct (for_selections visit_selection [] 1 selections [])
    as [[e | []] es]; [discriminate |].
  intros H. injection H as <- <- <-. repeat split.
Qed.

Lemma selections_readable path child_limit selections acc u acc' :
  for_selections visit_selection path child_limit selections acc
  = (inr u, acc') ->
  forallb (all_nodes named) selections = true /\
  forallb (all_nodes accepted) selections = true.
Proof.
  intros H. split.
  - eapply for_selections_named; [| exact H].
    apply Forall_forall. intros s _. apply visit_selection_named.
  - eapply for_selections_accepted; [| exact H].
    apply Forall_forall. intros s _. apply visit_selection_accepted.
Qed.

Lemma selections_walk path child_limit selections acc :
  forallb (all_nodes named) selections = true ->
  forallb (all_nodes accepted) selections = true ->
  for_selections visit_selection path child_limit selections acc
  = (Ok tt, acc ++ map (entry_below path child_limit)
                       (flat_map occurrences selections)).
Proof.
  intros Hnamed Hacc.
  destruct (for_selections_total path child_limit selections) with (acc := acc)
    as [acc' H]; try assumption.
  { apply Forall_forall. intros s _. apply visit_selection_total. }
  pose proof H as Hentries. apply for_selections_returns in Hentries.
  - rewrite H. now rewrite Hentries.
  - apply Forall_forall. intros s _. apply visit_selection_returns.
Qed.

Lemma entry_below_field name k o :
  entry_below [name] k o
  = (below_field name (fst (entry_below [] 1 o)), k * snd (entry_below [] 1 o)).
Proof.
  unfold entry_below. cbn [fst snd app]. f_equal; [| ring].
  apply concat_below_field. destruct o as [anc l]. cbn [fst snd].
  rewrite map_app. now destruct (map node_name anc).
Qed.

Lemma sum_scaled name k (entries : list Entry) :
  sum (map snd (map (fun e : Entry => (below_field name (fst e), k * snd e))
                    entries))
  = k * sum (map snd entries).
Proof.
  induction entries as [| e rest IH]; [cbn; lia |].
  cbn [map sum fold_right snd] in *. unfold sum in IH. rewrite IH. lia.
Qed.

Lemma sum_app (l l' : list Z) : sum (l ++ l') = sum l + sum l'.
Proof.
  induction l as [| z rest IH]; [reflexivity |].
  unfold sum in *. simpl. rewrite IH. lia.
Qed.

Lemma sum_at_least_count (entries : list Entry) :
  Forall (fun e : Entry => 1 <= snd e) entries ->
  Z.of_nat (length entries) <= sum (map snd entries).
Proof.
  induction 1 as [| e rest He _ IH]; [reflexivity |].
  unfold sum in *. cbn [map fold_right length]. lia.
Qed.

Lemma for_definitions_without_selections defs acc :
  Forall (fun d => definition_selection_set d = None) defs ->
  for_definitions defs acc = (Ok tt, acc).
Proof.
  induction 1 as [| d rest Hd _ IH]; [reflexivity |].
  cbn [for_definitions]. unfold bind. rewrite Hd. exact IH.
Qed.

Lemma walk_field_around name arguments selections k acc :
  for_arguments 1 1 arguments = inr k ->
  for_selections visit_selection [] 1
                 [FieldNode name arguments (Some selections)] acc
  = match for_selections visit_selection [name] k selections acc with
    | (inl e, acc') => (Raise e, acc')
    | (inr _, acc') => (Ok tt, acc')
    end.
Proof.
  intros Hk. cbn [for_selections name_value has_selection_set selection_set_of].
  unfold bind at 1, lift at 1. unfold Ok at 1. cbn [app].
  unfold bind at 1. cbn [visit_selection]. unfold bind at 1, lift at 1.
  rewrite Hk. reflexivity.
Qed.

(** ** Further properties of the report *)

Section Extras.

Variable parse : string -> Result DocumentNode.

(** X1.  The report depends on the skeleton of the document only: the
    arguments not named [limit], the arguments of the leaves and the
    difference between a fragment spread and a leaf field change neither
    the report nor the exception. *)
Theorem report_depends_on_skeleton query query' h h' document :
  parse query = Ok document ->
  parse query' = Ok (skeleton_document document) ->
  cost_report parse query h = cost_report parse query' h'.
Proof.
  intros H H'. rewrite !cost_report_of, H, H'.
  unfold report_of, Ok. cbn [skeleton_document definitions].
  now rewrite for_definitions_skeleton.
Qed.

(** X2.  When a field repeats the [limit] argument, the last one is its
    limit: the selections are walked with the integer of the last limit
    times the inherited limit, provided the limits before it are read as
    integers; a limit before it that [int] rejects still raises. *)
Theorem last_limit_argument_wins
  name arguments a z selections path current_limit all_fields :
  is_limit a = true ->
  int_of_value (arg_value a) = Ok z ->
  ((exists v, for_arguments current_limit current_limit arguments = Ok v) ->
   visit_node (SelectionN (FieldNode name (arguments ++ [a]) (Some selections)))
              path current_limit all_fields
   = for_selections visit_selection path (z * current_limit) selections
                    all_fields) /\
  (forall e,
      for_arguments current_limit current_limit arguments = Raise e ->
      visit_node (SelectionN (FieldNode name (arguments ++ [a]) (Some selections)))
                 path current_limit all_fields
      = (Raise e, all_fields)).
Proof.
  intros Ha Hz. unfold is_limit in Ha. unfold Ok in Hz.
  split; [intros [v Hv] | intros e He];
    cbn [visit_node visit_selection]; unfold bind, lift;
    rewrite for_arguments_app; [rewrite Hv | rewrite He];
    [| reflexivity].
  cbn [for_arguments]. now rewrite Ha, Hz.
Qed.

(** X3.  A parsed query gets a report exactly when none of its selections
    is an inline fragment and every limit of a field with a selection set
    is read as an integer by [int]. *)
Theorem report_iff_readable query h document :
  parse query = Ok document ->
  (exists report, cost_report parse query h = Ok report) <->
  all_nodes_of_document named document = true /\
  all_nodes_of_document accepted document = true.
Proof.
  intros Hparse. rewrite cost_report_of, Hparse. unfold report_of, Ok.
  destruct document as [defs]. cbn [definitions]. split.
  - intros [report H].
    destruct (for_definitions defs []) as [[e | u] entries] eqn:Hwalk;
      [discriminate |].
    split; [eapply for_definitions_named | eapply for_definitions_accepted];
      exact Hwalk.
  - intros [Hnamed Hacc].
    destruct (for_definitions_total defs Hnamed Hacc []) as [entries ->].
    eauto.
Qed.

(** X4.  A query with an inline fragment among its selections never gets a
    report: the walk raises [AttributeError] or [ValueError]. *)
Theorem inline_fragment_is_rejected query h document :
  parse query = Ok document ->
  all_nodes_of_document named document = false ->
  exists e, cost_report parse query h = Raise e /\
            (is_ValueError e \/ is_AttributeError e).
Proof.
  intros Hparse Hnamed. rewrite cost_report_of, Hparse. unfold report_of, Ok.
  destruct (for_definitions (definitions document) [])
    as [[e | u] entries] eqn:Hwalk.
  - exists e. split; [reflexivity |].
    now apply for_definitions_raises in Hwalk.
  - apply for_definitions_named in Hwalk. destruct document as [defs].
    cbn [definitions] in Hwalk. congruence.
Qed.

(** X5.  Putting the selections of a query under a field [name] whose
    limit is read as [k] puts [name.] before every path and multiplies
    every limit by [k]: the total cost becomes [k] times the sum of the
    limits plus the number of entries. *)
Theorem field_around_selections
  query_in query_out h h' name arguments selections k total fields entries :
  parse query_in = Ok (query_of selections) ->
  parse query_out = Ok (query_of [FieldNode name arguments (Some selections)]) ->
  for_arguments 1 1 arguments = Ok k ->
  cost_report parse query_in h = Ok (total, fields, entries) ->
  cost_report parse query_out h'
  = Ok (k * (total - Z.of_nat (length entries)) + Z.of_nat (length entries),
        map (below_field name) fields,
        map (fun e : Entry => (below_field name (fst e), k * snd e)) entries).
Proof.
  intros Hin Hout Hk H.
  rewrite cost_report_of, Hin in H.
  apply report_of_query_returns in H as (Hwalk & -> & ->).
  destruct (selections_readable _ _ _ _ _ _ Hwalk) as [Hnamed Hacc].
  rewrite (selections_walk [] 1 selections [] Hnamed Hacc) in Hwalk.
  injection Hwalk as <-. cbn [app].
  rewrite cost_report_of, Hout, report_of_query.
  unfold Ok in Hk. rewrite (walk_field_around name arguments selections k [] Hk).
  rewrite (selections_walk [name] k selections [] Hnamed Hacc).
  unfold Ok. cbn [app].
  assert (Hentries :
            map (entry_below [name] k) (flat_map occurrences selections)
            = map (fun e : Entry => (below_field name (fst e), k * snd e))
                  (map (entry_below [] 1) (flat_map occurrences selections))).
  { rewrite map_map. apply map_ext. intros o. apply entry_below_field. }
  rewrite Hentries.
  set (es := map (entry_below [] 1) (flat_map occurrences selections)).
  rewrite sum_scaled, length_map, !map_map. cbn [fst].
  do 3 f_equal. lia.
Qed.

(** X6.  The report of a query that lists the selections of one query
    after those of another is the two reports put together: the totals
    add up, and the paths and the entries are concatenated in that order. *)
Theorem selections_concatenate
  query1 query2 query h1 h2 h selections1 selections2
  total1 fields1 entries1 total2 fields2 entries2 :
  parse query1 = Ok (query_of selections1) ->
  parse query2 = Ok (query_of selections2) ->
  parse query = Ok (query_of (selections1 ++ selections2)) ->
  cost_report parse query1 h1 = Ok (total1, fields1, entries1) ->
  cost_report parse query2 h2 = Ok (total2, fields2, entries2) ->
  cost_report parse query h
  = Ok (total1 + total2, fields1 ++ fields2, entries1 ++ entries2).
Proof.
  intros Hq1 Hq2 Hq H1 H2.
  rewrite cost_report_of, Hq1 in H1. rewrite cost_report_of, Hq2 in H2.
  apply report_of_query_returns in H1 as (Hwalk1 & -> & ->).
  apply report_of_query_returns in H2 as (Hwalk2 & -> & ->).
  rewrite cost_report_of, Hq, report_of_query, for_selections_app.
  unfold bind. unfold Ok in Hwalk1, Hwalk2. rewrite Hwalk1.
  assert (Happ : appends (for_selections visit_selection [] 1 selections2)).
  { apply appends_for_selections, Forall_forall.
    intros s _. apply appends_visit_selection. }
  rewrite (Happ entries1), Hwalk2. cbn [fst snd].
  rewrite !map_app, sum_app, length_app, Nat2Z.inj_add.
  unfold Ok. do 3 f_equal. unfold Entry. lia.
Qed.

(** X7.  A document none of whose definitions has a selection set, such as
    a document of type definitions or an empty one, is not an error: its
    report has the total cost 0 and no field. *)
Theorem no_selection_set_costs_nothing query h document :
  parse query = Ok document ->
  Forall (fun d => definition_selection_set d = None) (definitions document) ->
  cost_report parse query h = Ok (0, [], []).
Proof.
  intros Hparse Hnone. rewrite cost_report_of, Hparse. unfold report_of, Ok.
  now rewrite (for_definitions_without_selections _ [] Hnone).
Qed.

(** X8.  When every limit of the query is an integer literal of at least
    1, the total cost is at least twice the number of entries. *)
Theorem total_cost_lower_bound query h document total fields entries :
  parse query = Ok document ->
  all_nodes_of_document (limits_pass positive_int_literal) document = true ->
  cost_report parse query h = Ok (total, fields, entries) ->
  2 * Z.of_nat (length entries) <= total.
Proof.
  intros Hparse Hpos H.
  apply cost_report_returns in H as (d & Hd & _ & Hentries & -> & _).
  rewrite Hparse in Hd. injection Hd as <-.
  assert (Hones : Forall (fun e : Entry => 1 <= snd e) entries).
  { rewrite Hentries.
    apply (document_occurrences_ok positive_int_literal (fun z => 1 <= z));
      [lia | intros; nia | | exact Hpos].
    intros v z Hv Hz.
    apply positive_int_literal_converts in Hv as (z' & Hz' & Hlt).
    assert (z = z') by congruence. lia. }
  apply sum_at_least_count in Hones. lia.
Qed.

(** X9.  [visit_node] only appends to [all_fields]: whatever the list
    holds, the call returns or raises as it does from the empty list and
    leaves the list extended by the entries it adds from the empty list,
    also when it raises. *)
Theorem visit_node_only_appends node path current_limit all_fields :
  visit_node node path current_limit all_fields
  = (fst (visit_node node path current_limit []),
     all_fields ++ snd (visit_node node path current_limit [])).
Proof. apply appends_visit_node. Qed.

End Extras.

(** ** The page *)

Lemma ui_bind_st {B} (call : St.Call) (k : unit -> Ui B) page :
  ui_bind (st call) k page = k tt (page ++ [call]).
Proof. reflexivity. Qed.

Lemma ui_bind_lift {A B} (a : A) (k : A -> Ui B) page :
  ui_bind (ui_lift (inr a)) k page = k a page.
Proof. reflexivity. Qed.

Lemma for_fields_page fields :
  forall page,
    for_fields fields page
    = (Ok tt,
       page ++ map (fun field => St.markdown ("- `" ++ field ++ "`")) fields).
Proof.
  induction fields as [| field rest IH]; intros page.
  - cbn. now rewrite app_nil_r.
  - cbn [for_fields map]. rewrite ui_bind_st, IH, <- app_assoc. reflexivity.
Qed.

Lemma for_rows_returns fields_with_limits :
  forall Field Calculation Result_ sum_of_credits calculations total,
    for_rows fields_with_limits (Field, Calculation, Result_) sum_of_credits
    = Ok (calculations, total) ->
    exists digits,
      Forall2 (fun (e : Entry) d => str_int (snd e) = Ok d)
              fields_with_limits digits /\
      calculations
      = (Field ++ map fst fields_with_limits,
         Calculation ++ map (fun d => ("1 x " ++ d)%string) digits,
         Result_ ++ map (fun d => (d ++ " credits")%string) digits) /\
      total = sum_of_credits + sum (map snd fields_with_limits).
Proof.
  induction fields_with_limits as [| [field limit_] rest IH];
    intros F C R S calculations total H.
  - cbn in H. unfold Ok in H. injection H as <- <-. exists [].
    split; [constructor |]. cbn. rewrite !app_nil_r. split; [reflexivity | lia].
  - cbn [for_rows] in H.
    destruct (str_int limit_) as [e | d] eqn:Hd; [discriminate |].
    apply IH in H as (digits & Hdigits & -> & ->).
    exists (d :: digits). split; [now constructor |].
    cbn [map fst snd]. rewrite <- !app_assoc. split; [reflexivity |].
    unfold sum. cbn [fold_right]. lia.
Qed.

Lemma for_rows_digits fields_with_limits digits :
  Forall2 (fun (e : Entry) d => str_int (snd e) = Ok d)
          fields_with_limits digits ->
  forall Field Calculation Result_ sum_of_credits,
    for_rows fields_with_limits (Field, Calculation, Result_) sum_of_credits
    = Ok ((Field ++ map fst fields_with_limits,
           Calculation ++ map (fun d => ("1 x " ++ d)%string) digits,
           Result_ ++ map (fun d => (d ++ " credits")%string) digits),
          sum_of_credits + sum (map snd fields_with_limits)).
Proof.
  induction 1 as [| [field limit_] d rest digits Hd _ IH]; intros F C R S.
  - cbn. rewrite !app_nil_r. unfold Ok. do 2 f_equal. lia.
  - cbn [for_rows]. cbn [snd] in Hd. unfold Ok in Hd. rewrite Hd, IH.
    cbn [map fst snd]. rewrite <- !app_assoc. unfold Ok. do 2 f_equal.
    unfold sum. cbn [fold_right]. lia.
Qed.

Lemma DataFrame_of_rows (Field Calculation Result_ : list string) :
  length Calculation = length Field ->
  length Result_ = length Field ->
  DataFrame_of [("Field", Field); ("Calculation", Calculation);
                ("Result", Result_)]
  = Ok [("Field", Field); ("Calculation", Calculation); ("Result", Result_)].
Proof.
  intros HC HR. cbn [DataFrame_of forallb snd].
  now rewrite HC, HR, Nat.eqb_refl.
Qed.

Section MainProperties.

Variable parse : string -> Result DocumentNode.
Variable str_exception : Exception -> string.

Lemma calculate_cost_returns query h total fields entries :
  cost_report parse query h = Ok (total, fields, entries) ->
  exists l h',
    calculate_cost parse query h = (inr (total, fields, l), h') /\
    deref h' l = entries.
Proof.
  unfold cost_report, observe, Ok.
  destruct (calculate_cost parse query h) as [[e | [[t f] l]] h'];
    [discriminate |].
  intros H. injection H as <- <- <-. now exists l, h'.
Qed.

Lemma calculate_cost_raises query h e :
  cost_report parse query h = Raise e ->
  exists h', calculate_cost parse query h = (inl e, h').
Proof.
  unfold cost_report, observe, Raise.
  destruct (calculate_cost parse query h) as [[e' | [[t f] l]] h'];
    [| discriminate].
  intros H. injection H as <-. now exists h'.
Qed.

(** X10.  When the parser raises a syntax error and the button was
    clicked, the page is its head, the fixed message of line 107 and the
    footer: the message of the parser is not shown, and no list is
    allocated. *)
Theorem main_shows_syntax_error query h message :
  parse query = Raise (GraphQLSyntaxError message) ->
  main parse str_exception query true h
  = (page_head ++ [St.error syntax_error_message; St.markdown footer], h).
Proof.
  intros Hparse. unfold main, calculate_cost, extract_fields_and_limit.
  rewrite Hparse. unfold Raise. cbn [except].
  now rewrite <- app_assoc.
Qed.

(** X11.  When the query parses and the walker raises, the exception is
    a [ValueError] or an [AttributeError]; [str] gives the message of such
    an exception, and the page is its head, one error that reads [Error: ]
    followed by that message, and the footer: nothing of the report is
    shown. *)
Theorem main_shows_walker_error query h document e :
  parse query = Ok document ->
  cost_report parse query h = Raise e ->
  (forall message, str_exception (ValueError message) = message) ->
  (forall message, str_exception (AttributeError message) = message) ->
  exists message,
    (e = ValueError message \/ e = AttributeError message) /\
    fst (main parse str_exception query true h)
    = page_head ++ [St.error ("Error: " ++ message); St.markdown footer].
Proof.
  intros Hparse H Hvalue Hattribute.
  assert (He : is_ValueError e \/ is_AttributeError e)
    by (eapply cost_report_raises; eauto).
  apply calculate_cost_raises in H as [h' H].
  unfold main. rewrite H. cbn [fst]. rewrite <- app_assoc.
  destruct He as [[message ->] | [message ->]]; exists message;
    cbn [except]; rewrite ?Hvalue, ?Hattribute; auto.
Qed.

(** X12.  The loop of lines 85-89 gives the three columns of the table one
    cell for each entry, in the order of the entries, so [pd.DataFrame]
    never raises on them; the column [Field] holds the paths, and the sum
    it computes is the sum of the limits. *)
Theorem table_has_a_row_for_each_entry
  fields_with_limits Field Calculation Result_ sum_of_credits :
  for_rows fields_with_limits ([], [], []) 0
  = Ok ((Field, Calculation, Result_), sum_of_credits) ->
  Field = map fst fields_with_limits /\
  length Calculation = length fields_with_limits /\
  length Result_ = length fields_with_limits /\
  sum_of_credits = sum (map snd fields_with_limits) /\
  DataFrame_of [("Field", Field); ("Calculation", Calculation);
                ("Result", Result_)]
  = Ok [("Field", Field); ("Calculation", Calculation); ("Result", Result_)].
Proof.
  intros H. apply for_rows_returns in H as (digits & Hdigits & Hcols & ->).
  cbn [app] in Hcols. injection Hcols as -> -> ->.
  apply Forall2_length in Hdigits.
  split; [reflexivity |].
  split; [rewrite length_map; symmetry; exact Hdigits |].
  split; [rewrite length_map; symmetry; exact Hdigits |].
  split; [reflexivity |].
  apply DataFrame_of_rows; rewrite !length_map; symmetry; exact Hdigits.
Qed.

(** X13.  The numbers of the last formula add up: the sum of credits that
    [main] computes from the entries plus the number of fields it lists is
    the total cost [calculate_cost] returned, and the column [Field] of
    the table is the list of fields. *)
Theorem displayed_formula_adds_up
  query h total_cost fields fields_with_limits calculations sum_of_credits :
  cost_report parse query h = Ok (total_cost, fields, fields_with_limits) ->
  for_rows fields_with_limits ([], [], []) 0
  = Ok (calculations, sum_of_credits) ->
  sum_of_credits + Z.of_nat (length fields) = total_cost /\
  fst (fst calculations) = fields.
Proof.
  intros Hreport Hrows.
  apply cost_report_returns in Hreport as (d & _ & _ & _ & -> & ->).
  apply for_rows_returns in Hrows as (digits & _ & -> & ->).
  cbn [fst app]. rewrite length_map. split; [unfold Entry; lia | reflexivity].
Qed.

(** X14.  When [calculate_cost] returns a report and the numbers to print
    have at most 4300 digits, the page is its head, the report and the
    footer: the metric with the total cost, one bullet for each field, the
    table with one row for each entry, and the formula whose sum of
    credits is the total cost minus the number of fields. *)
Theorem main_shows_report
  query h total_cost fields fields_with_limits cost number credits digits :
  cost_report parse query h = Ok (total_cost, fields, fields_with_limits) ->
  str_int total_cost = Ok cost ->
  str_int (Z.of_nat (length fields)) = Ok number ->
  str_int (total_cost - Z.of_nat (length fields)) = Ok credits ->
  Forall2 (fun (e : Entry) d => str_int (snd e) = Ok d)
          fields_with_limits digits ->
  fst (main parse str_exception query true h)
  = page_head
    ++ report_page query fields fields_with_limits cost number credits digits
    ++ [St.markdown footer].
Proof.
  intros Hreport Hcost Hnumber Hcredits Hdigits.
  pose proof Hreport as Hvalues.
  apply cost_report_returns in Hvalues as (d & _ & _ & _ & Htotal & Hfields).
  apply calculate_cost_returns in Hreport as (l & h' & Hcall & Hderef).
  assert (Hsum : 0 + sum (map snd fields_with_limits)
                 = total_cost - Z.of_nat (length fields)).
  { rewrite Htotal, Hfields, length_map. unfold Entry. lia. }
  unfold main. rewrite Hcall, Hderef. unfold show_report.
  unfold Ok in Hcost, Hnumber, Hcredits.
  rewrite !ui_bind_st, Hcost, ui_bind_lift, !ui_bind_st.
  unfold ui_bind at 1. rewrite for_fields_page.
  rewrite !ui_bind_st.
  rewrite (for_rows_digits fields_with_limits digits Hdigits [] [] [] 0).
  unfold Ok at 1. rewrite ui_bind_lift. cbn [app].
  rewrite DataFrame_of_rows
    by (rewrite !length_map; symmetry; exact (Forall2_length Hdigits)).
  unfold Ok at 1. rewrite ui_bind_lift, !ui_bind_st.
  rewrite Hsum, Hnumber, Hcredits.
  repeat first [rewrite ui_bind_lift | rewrite ui_bind_st].
  unfold st, Ok. cbn [fst]. unfold report_page.
  repeat rewrite <- app_assoc. reflexivity.
Qed.

End MainProperties.

End Int.
(** ** The properties at the example queries *)

(** C1 at [{ a(limit: 2) }]. *)
Lemma leaf_limit_is_not_read_witness :
  parse_examples text_P4 = Ok document_P4 /\
  cost_report int_examples parse_examples text_P4 []
  = Ok (2, ["a"], [("a", 1)]).
Proof.
  split; [reflexivity |].
  apply (leaf_limit_is_not_read int_examples parse_examples text_P4 []
           "a" [limit (IntValueNode "2")]).
  reflexivity.
Defined.

(** C1 as the specification states it fails at [{ a(limit: 2) }]: the
    entry is [("a", 1)] and the total cost 2, not [("a", 2)] and 3. *)
Lemma leaf_limit_folded_counterexample :
  parse_examples text_P4 = Ok document_P4 /\
  cost_report int_examples parse_examples text_P4 []
  = Ok (2, ["a"], [("a", 1)]) /\
  cost_report int_examples parse_examples text_P4 []
  <> Ok (3, ["a"], [("a", 2)]).
Proof.
  split; [reflexivity |]. split; [reflexivity |]. vm_compute. discriminate.
Qed.

(** C2 at [{ items(limit: 5) { id name } }]. *)
Lemma total_cost_is_sum_plus_count_witness :
  cost_report int_examples parse_examples text_P2 []
  = Ok (12, ["items.id"; "items.name"], [("items.id", 5); ("items.name", 5)]) /\
  12 = sum (map snd [("items.id", 5); ("items.name", 5)])
       + Z.of_nat (length [("items.id", 5); ("items.name", 5)]).
Proof.
  split; [reflexivity |].
  apply (total_cost_is_sum_plus_count int_examples parse_examples text_P2 [] 12
           ["items.id"; "items.name"] [("items.id", 5); ("items.name", 5)]).
  reflexivity.
Defined.

(** C3 at [{ a(limit:10) { b(limit:3) { c } } }] and at [{ a b c }]. *)
Lemma effective_limit_is_product_of_ancestor_limits_witness :
  parse_examples text_P3 = Ok document_P3 /\
  cost_report int_examples parse_examples text_P3 []
  = Ok (31, ["a.b.c"], [("a.b.c", 30)]) /\
  parse_examples text_P1 = Ok document_P1 /\
  exists fields entries,
    cost_report int_examples parse_examples text_P1 []
    = Ok (2 * 3, fields, entries).
Proof.
  split; [reflexivity |]. split.
  - apply (effective_limit_is_product_of_ancestor_limits
             int_examples parse_examples text_P3 [] document_P3); reflexivity.
  - split; [reflexivity |].
    apply (effective_limit_is_product_of_ancestor_limits
             int_examples parse_examples text_P1 [] document_P1); reflexivity.
Defined.

(** C4 at a query whose field [a], with a selection set, has the string
    literal [abc] as limit. *)
Lemma rejected_limit_raises_untyped_error_witness :
  parse_examples text_string_limit = Ok document_string_limit /\
  some_node_of_document (rejected_limit int_examples)
                        document_string_limit = true /\
  cost_report int_examples parse_examples text_string_limit []
  = Raise abc_error.
Proof.
  split; [reflexivity |]. split; [reflexivity |].
  apply (rejected_limit_raises_untyped_error
           int_examples parse_examples text_string_limit []
           document_string_limit
           eq_refl) with (name := "a") (s := "abc") (selections := [leaf "b"]);
    reflexivity.
Defined.

(** C4 as the specification states it fails: the string literal [abc]
    raises [ValueError] and no [CostComputationError]; the string literal
    [5] and the integer literal [-3] are converted and multiplied in; and
    the string literal [abc] on a leaf raises nothing. *)
Lemma cost_computation_error_counterexample :
  cost_report int_examples parse_examples text_string_limit []
  = Raise abc_error /\
  (forall path, cost_report int_examples parse_examples text_string_limit []
                <> Raise (CostComputationError path)) /\
  cost_report int_examples parse_examples text_numeric_string_limit []
  = Ok (6, ["a.b"], [("a.b", 5)]) /\
  cost_report int_examples parse_examples text_negative_limit []
  = Ok (-2, ["a.b"], [("a.b", -3)]) /\
  cost_report int_examples parse_examples text_string_limit_leaf []
  = Ok (2, ["a"], [("a", 1)]).
Proof.
  split; [reflexivity |]. split; [| repeat split].
  intros path. vm_compute. discriminate.
Qed.

(** C5 at [{ items(limit: 5) { id name } }]. *)
Lemma effective_limits_are_not_negative_witness :
  parse_examples text_P2 = Ok document_P2 /\
  all_nodes_of_document (limits_pass (nonnegative_int_literal int_examples))
                        document_P2
  = true /\
  cost_report int_examples parse_examples text_P2 []
  = Ok (12, ["items.id"; "items.name"], [("items.id", 5); ("items.name", 5)]) /\
  Forall (fun e : Entry => 0 <= snd e) [("items.id", 5); ("items.name", 5)].
Proof.
  split; [reflexivity |]. split; [reflexivity |]. split; [reflexivity |].
  apply (effective_limits_are_not_negative
           int_examples parse_examples text_P2 [] document_P2 eq_refl eq_refl)
    with (total := 12) (fields := ["items.id"; "items.name"]).
  reflexivity.
Defined.

(** C5 as the specification states it fails at [{ a(limit: 0) { b } }]:
    the limit 0 is not negative and the entry of [a.b] has the limit 0,
    which is not positive. *)
Lemma positive_effective_limit_counterexample :
  parse_examples text_zero_limit = Ok document_zero_limit /\
  all_nodes_of_document (limits_pass (nonnegative_int_literal int_examples))
                        document_zero_limit = true /\
  cost_report int_examples parse_examples text_zero_limit []
  = Ok (1, ["a.b"], [("a.b", 0)]) /\
  ~ Forall (fun e : Entry => 0 < snd e) [("a.b", 0)].
Proof.
  split; [reflexivity |]. split; [reflexivity |]. split; [reflexivity |].
  intros H. inversion H as [| e rest Hlt _]. simpl in Hlt. lia.
Qed.

(** C6 at a document with two operations. *)
Lemma definitions_are_walked_independently_witness :
  parse_examples text_two_operations = Ok document_two_operations /\
  cost_report int_examples parse_examples text_two_operations []
  = Ok (16, ["a.x"; "a.y"; "b.z"; "c"],
        [("a.x", 2); ("a.y", 2); ("b.z", 7); ("c", 1)]) /\
  exists per_definition,
    Forall2 (fun d entries_of_d =>
               visit_node int_examples (DefinitionN d) [] 1 []
               = (Ok tt, entries_of_d))
            (definitions document_two_operations) per_definition /\
    [("a.x", 2); ("a.y", 2); ("b.z", 7); ("c", 1)] = concat per_definition.
Proof.
  split; [reflexivity |]. split; [reflexivity |].
  apply (definitions_are_walked_independently
           int_examples parse_examples text_two_operations []
           document_two_operations 16
           ["a.x"; "a.y"; "b.z"; "c"]); reflexivity.
Defined.

(** C7 at [{ a a b { a c } c { a } a }]: the leaf [a] is listed at each of
    its four occurrences. *)
Lemma field_paths_follow_document_order_witness :
  parse_examples text_repeated = Ok document_repeated /\
  cost_report int_examples parse_examples text_repeated []
  = Ok (12, ["a"; "a"; "b.a"; "b.c"; "c.a"; "a"],
        [("a", 1); ("a", 1); ("b.a", 1); ("b.c", 1); ("c.a", 1); ("a", 1)]) /\
  ["a"; "a"; "b.a"; "b.c"; "c.a"; "a"]
  = map occurrence_path (document_occurrences document_repeated).
Proof.
  split; [reflexivity |]. split; [reflexivity |].
  apply (field_paths_follow_document_order
           int_examples parse_examples text_repeated [] document_repeated 12
           ["a"; "a"; "b.a"; "b.c"; "c.a"; "a"]
           [("a", 1); ("a", 1); ("b.a", 1); ("b.c", 1); ("c.a", 1); ("a", 1)]);
    reflexivity.
Defined.

(** C8 at the unbalanced query [{]. *)
Lemma syntax_error_is_propagated_witness :
  parse_examples text_P5 = Raise error_P5 /\
  calculate_cost int_examples parse_examples text_P5 []
  = (Raise error_P5, []) /\
  cost_report int_examples parse_examples text_P5 [] = Raise error_P5.
Proof.
  split; [reflexivity |].
  apply (syntax_error_is_propagated int_examples parse_examples text_P5 []
           "Syntax Error: Expected Name, found <EOF>.").
  reflexivity.
Defined.

(** C10 at [{ items(limit: 5) { id name } }]. *)
Lemma field_paths_are_entry_paths_witness :
  cost_report int_examples parse_examples text_P2 []
  = Ok (12, ["items.id"; "items.name"], [("items.id", 5); ("items.name", 5)]) /\
  ["items.id"; "items.name"] = map fst [("items.id", 5); ("items.name", 5)].
Proof.
  split; [reflexivity |].
  apply (field_paths_are_entry_paths int_examples parse_examples text_P2 [] 12
           ["items.id"; "items.name"] [("items.id", 5); ("items.name", 5)]).
  reflexivity.
Defined.

(** ** The further properties at example queries *)

(** X1 at a field with a [where] argument, a limit on a leaf and a
    fragment spread, and at its skeleton. *)
Lemma report_depends_on_skeleton_witness :
  parse_more_examples text_other_arguments = Ok document_other_arguments /\
  parse_more_examples text_skeleton
  = Ok (skeleton_document document_other_arguments) /\
  cost_report int_examples parse_more_examples text_other_arguments []
  = cost_report int_examples parse_more_examples text_skeleton [] /\
  cost_report int_examples parse_more_examples text_skeleton []
  = Ok (12, ["items.id"; "items.F"], [("items.id", 5); ("items.F", 5)]).
Proof.
  split; [reflexivity |]. split; [reflexivity |]. split; [| reflexivity].
  apply (report_depends_on_skeleton int_examples parse_more_examples
           text_other_arguments text_skeleton [] []
           document_other_arguments); reflexivity.
Defined.

(** X2 at the field [a(limit: 2, limit: 3) { b }]. *)
Lemma last_limit_argument_wins_witness :
  is_limit (limit (IntValueNode "3")) = true /\
  int_of_value int_examples (IntValueNode "3") = Ok 3 /\
  visit_node int_examples (SelectionN (FieldNode "a" ([limit (IntValueNode "2")]
                                           ++ [limit (IntValueNode "3")])
                                    (Some [leaf "b"])))
             ["a"] 1 []
  = (Ok tt, [("a.b", 3)]).
Proof.
  split; [reflexivity |]. split; [reflexivity |].
  rewrite (proj1 (last_limit_argument_wins int_examples
                    "a" [limit (IntValueNode "2")] (limit (IntValueNode "3")) 3
                    [leaf "b"] ["a"] 1 [] eq_refl eq_refl)).
  - reflexivity.
  - exists 2. reflexivity.
Defined.

(** X3 at [{ a(limit:10) { b(limit:3) { c } } }]. *)
Lemma report_iff_readable_witness :
  parse_examples text_P3 = Ok document_P3 /\
  exists report, cost_report int_examples parse_examples text_P3 [] = Ok report.
Proof.
  split; [reflexivity |].
  apply (report_iff_readable
           int_examples parse_examples text_P3 [] document_P3 eq_refl).
  split; reflexivity.
Defined.

(** X4 at [{ a { ... on T { b } } }]. *)
Lemma inline_fragment_is_rejected_witness :
  parse_more_examples text_inline_fragment = Ok document_inline_fragment /\
  all_nodes_of_document named document_inline_fragment = false /\
  exists e,
    cost_report int_examples parse_more_examples text_inline_fragment []
    = Raise e /\
            (is_ValueError e \/ is_AttributeError e).
Proof.
  split; [reflexivity |]. split; [reflexivity |].
  apply (inline_fragment_is_rejected
           int_examples parse_more_examples text_inline_fragment []
           document_inline_fragment); reflexivity.
Defined.

(** X5 at [{ id name }] and [{ items(limit: 5) { id name } }]. *)
Lemma field_around_selections_witness :
  parse_more_examples text_inner = Ok (query_of [leaf "id"; leaf "name"]) /\
  parse_more_examples text_P2
  = Ok (query_of [FieldNode "items" [limit (IntValueNode "5")]
                            (Some [leaf "id"; leaf "name"])]) /\
  for_arguments int_examples 1 1 [limit (IntValueNode "5")] = Ok 5 /\
  cost_report int_examples parse_more_examples text_inner []
  = Ok (4, ["id"; "name"], [("id", 1); ("name", 1)]) /\
  cost_report int_examples parse_more_examples text_P2 []
  = Ok (5 * (4 - 2) + 2, ["items.id"; "items.name"],
        [("items.id", 5); ("items.name", 5)]).
Proof.
  split; [reflexivity |]. split; [reflexivity |]. split; [reflexivity |].
  split; [reflexivity |].
  apply (field_around_selections
           int_examples parse_more_examples text_inner text_P2 [] []
           "items" [limit (IntValueNode "5")] [leaf "id"; leaf "name"] 5
           4 ["id"; "name"] [("id", 1); ("name", 1)]); reflexivity.
Defined.

(** X6 at [{ a b c }], [{ items(limit: 5) { id name } }] and the query
    with the selections of both. *)
Lemma selections_concatenate_witness :
  parse_more_examples text_joined
  = Ok (query_of ([leaf "a"; leaf "b"; leaf "c"]
                  ++ [FieldNode "items" [limit (IntValueNode "5")]
                                (Some [leaf "id"; leaf "name"])])) /\
  cost_report int_examples parse_more_examples text_P1 []
  = Ok (6, ["a"; "b"; "c"], [("a", 1); ("b", 1); ("c", 1)]) /\
  cost_report int_examples parse_more_examples text_P2 []
  = Ok (12, ["items.id"; "items.name"], [("items.id", 5); ("items.name", 5)]) /\
  cost_report int_examples parse_more_examples text_joined []
  = Ok (6 + 12, ["a"; "b"; "c"] ++ ["items.id"; "items.name"],
        [("a", 1); ("b", 1); ("c", 1)]
        ++ [("items.id", 5); ("items.name", 5)]).
Proof.
  split; [reflexivity |]. split; [reflexivity |]. split; [reflexivity |].
  apply (selections_concatenate int_examples parse_more_examples
           text_P1 text_P2 text_joined [] [] []
           [leaf "a"; leaf "b"; leaf "c"]
           [FieldNode "items" [limit (IntValueNode "5")]
                      (Some [leaf "id"; leaf "name"])]);
    reflexivity.
Defined.

(** X7 at a document of two type definitions. *)
Lemma no_selection_set_costs_nothing_witness :
  parse_more_examples text_type_definitions = Ok document_type_definitions /\
  cost_report int_examples parse_more_examples text_type_definitions []
  = Ok (0, [], []).
Proof.
  split; [reflexivity |].
  apply (no_selection_set_costs_nothing int_examples parse_more_examples
           text_type_definitions [] document_type_definitions);
    [reflexivity | repeat constructor].
Defined.

(** X8 at [{ a(limit:10) { b(limit:3) { c } } }]. *)
Lemma total_cost_lower_bound_witness :
  parse_examples text_P3 = Ok document_P3 /\
  all_nodes_of_document (limits_pass (positive_int_literal int_examples))
                        document_P3 = true /\
  cost_report int_examples parse_examples text_P3 []
  = Ok (31, ["a.b.c"], [("a.b.c", 30)]) /\
  2 * Z.of_nat (length [("a.b.c", 30)]) <= 31.
Proof.
  split; [reflexivity |]. split; [reflexivity |]. split; [reflexivity |].
  apply (total_cost_lower_bound
           int_examples parse_examples text_P3 [] document_P3
           31 ["a.b.c"] [("a.b.c", 30)]); reflexivity.
Defined.

(** ** The page at example queries *)

(** X10 at the unbalanced query [{]. *)
Lemma main_shows_syntax_error_witness :
  parse_examples text_P5 = Raise error_P5 /\
  main int_examples parse_examples str_examples text_P5 true []
  = (page_head ++ [St.error syntax_error_message; St.markdown footer], []).
Proof.
  split; [reflexivity |].
  apply (main_shows_syntax_error int_examples parse_examples str_examples
            text_P5 []
           "Syntax Error: Expected Name, found <EOF>.").
  reflexivity.
Defined.

(** X11 at the query whose field [a] has the string literal [abc] as
    limit: the page quotes the literal. *)
Lemma main_shows_walker_error_witness :
  parse_examples text_string_limit = Ok document_string_limit /\
  cost_report int_examples parse_examples text_string_limit []
  = Raise abc_error /\
  fst (main int_examples parse_examples str_examples text_string_limit true [])
  = page_head
    ++ [St.error "Error: invalid literal for int() with base 10: 'abc'";
        St.markdown footer] /\
  exists message,
    (abc_error = ValueError message \/ abc_error = AttributeError message) /\
    fst (main int_examples parse_examples str_examples text_string_limit
              true [])
    = page_head ++ [St.error ("Error: " ++ message); St.markdown footer].
Proof.
  split; [reflexivity |]. split; [reflexivity |]. split; [reflexivity |].
  apply (main_shows_walker_error int_examples parse_examples str_examples
           text_string_limit [] document_string_limit
           abc_error);
    reflexivity.
Defined.

(** X12 at the entries of [{ items(limit: 5) { id name } }]. *)
Lemma table_has_a_row_for_each_entry_witness :
  for_rows [("items.id", 5); ("items.name", 5)] ([], [], []) 0
  = Ok ((["items.id"; "items.name"], ["1 x 5"; "1 x 5"],
         ["5 credits"; "5 credits"]), 10) /\
  DataFrame_of [("Field", ["items.id"; "items.name"]);
                ("Calculation", ["1 x 5"; "1 x 5"]);
                ("Result", ["5 credits"; "5 credits"])]
  = Ok [("Field", ["items.id"; "items.name"]);
        ("Calculation", ["1 x 5"; "1 x 5"]);
        ("Result", ["5 credits"; "5 credits"])].
Proof.
  split; [reflexivity |].
  apply (table_has_a_row_for_each_entry
           [("items.id", 5); ("items.name", 5)]
           ["items.id"; "items.name"] ["1 x 5"; "1 x 5"]
           ["5 credits"; "5 credits"] 10).
  reflexivity.
Defined.

(** X13 at [{ items(limit: 5) { id name } }]: 10 + 2 = 12. *)
Lemma displayed_formula_adds_up_witness :
  cost_report int_examples parse_examples text_P2 []
  = Ok (12, ["items.id"; "items.name"], [("items.id", 5); ("items.name", 5)]) /\
  for_rows [("items.id", 5); ("items.name", 5)] ([], [], []) 0
  = Ok ((["items.id"; "items.name"], ["1 x 5"; "1 x 5"],
         ["5 credits"; "5 credits"]), 10) /\
  10 + Z.of_nat (length ["items.id"; "items.name"]) = 12.
Proof.
  split; [reflexivity |]. split; [reflexivity |].
  apply (displayed_formula_adds_up int_examples parse_examples text_P2 [] 12
           ["items.id"; "items.name"] [("items.id", 5); ("items.name", 5)]
           (["items.id"; "items.name"], ["1 x 5"; "1 x 5"],
            ["5 credits"; "5 credits"]) 10);
    reflexivity.
Defined.

(** X14 at [{ items(limit: 5) { id name } }]. *)
Lemma main_shows_report_witness :
  cost_report int_examples parse_examples text_P2 []
  = Ok (12, ["items.id"; "items.name"], [("items.id", 5); ("items.name", 5)]) /\
  str_int 12 = Ok "12" /\ str_int 2 = Ok "2" /\ str_int (12 - 2) = Ok "10" /\
  fst (main int_examples parse_examples str_examples text_P2 true [])
  = page_head
    ++ report_page text_P2 ["items.id"; "items.name"]
                   [("items.id", 5); ("items.name", 5)]
                   "12" "2" "10" ["5"; "5"]
    ++ [St.markdown footer].
Proof.
  split; [reflexivity |]. split; [reflexivity |]. split; [reflexivity |].
  split; [reflexivity |].
  apply (main_shows_report int_examples parse_examples str_examples
            text_P2 [] 12
           ["items.id"; "items.name"] [("items.id", 5); ("items.name", 5)]
           "12" "2" "10" ["5"; "5"]);
    try reflexivity.
  repeat constructor.
Defined.
